(** * Simpleperf: a shallow embedding of [simpleperf.py]

    The development follows the layout of the Python module: the unit
    converter ([format_size], [calculate_rate], [parse_num_bytes]), the
    server-side session ([handle_client]), the client-side session
    ([client_connection]), the orchestrator
    ([create_parallel_connections]) and the entry point ([main]).

    Conventions of the embedding:
    - Python [int] is [Z]; values that are Python [float]s (clock readings,
      converted sizes, rates) are exact rationals [Q], compared with the
      setoid order of [Q]: the rounding and the overflow of binary64 are
      not modelled, so the statements below speak of exact arithmetic or
      of control flow;
    - Python [str] is [string], a character being a code point below 256
      (Latin-1); Python [bytes] is [list byte];
    - an exception is a value of [exn]; both [InvalidUnit] and
      [MalformedInput] are [ValueError] in the source, told apart by the
      statement that raises them;
    - printing appends a structured [Line] to the output of the process:
      the text layout of a row is not modelled, its fields are. *)

From Stdlib Require Import ZArith QArith List Bool Lia Lqa.
From Stdlib.Strings Require Import String Ascii Byte.
From Stdlib Require Import Permutation.
Import ListNotations.

Local Open Scope Z_scope.

(** ** Exceptions and results *)

Inductive exn : Type :=
| InvalidUnit        (* [raise ValueError("Invalid unit specified ...")] *)
| MalformedInput     (* [ValueError] of the tuple unpacking or of [int()] *)
| ZeroDivisionError  (* float division by zero *)
| TypeError.         (* [None <= 0] *)

Inductive result (A : Type) : Type :=
| Ok (a : A)
| Raise (e : exn).
Arguments Ok {A} a.
Arguments Raise {A} e.

(** ** Module constants *)

Definition bytes : Type := list byte.

Definition b (s : string) : bytes := list_byte_of_string s.

Definition BUFFER_SIZE : Z := 1000.
Definition BYE : bytes := b "BYE".
Definition ACK_BYE : bytes := b "ACK: BYE".

Definition newline : string := String "010"%char EmptyString.

Definition len {A : Type} (l : list A) : Z := Z.of_nat (List.length l).

(** ** Unit converter *)

(** The dictionary [{'B': 1, 'KB': 1000, 'MB': 1000000}]; [None] is
    [unit not in units]. *)
Definition units (unit : string) : option Z :=
  if String.eqb unit "B" then Some 1
  else if String.eqb unit "KB" then Some 1000
  else if String.eqb unit "MB" then Some 1000000
  else None.

Definition format_size (size : Q) (unit : string) : result Q :=
  match units unit with
  | None => Raise InvalidUnit
  | Some u => Ok (size / inject_Z u)%Q
  end.

Definition calculate_rate (data : Q) (elapsed_time : Q) : result Q :=
  let megabits := ((data * 8) / 1000000)%Q in
  if Qeq_bool elapsed_time 0 then Raise ZeroDivisionError
  else Ok (megabits / elapsed_time)%Q.

(** *** Strings: [str.strip], [str.split], [int] *)

(** The white space at which [str.strip] and [str.split] cut, among the
    code points below 256: TAB, LF, VT, FF, CR, the four separators
    0x1c..0x1f, the blank, NEL (0x85) and the no-break space (0xa0). *)
Definition is_space (c : ascii) : bool :=
  let n := nat_of_ascii c in
  ((9 <=? n) && (n <=? 13) || (28 <=? n) && (n <=? 32)
   || (n =? 133) || (n =? 160))%nat.

Definition is_empty (s : string) : bool :=
  match s with
  | EmptyString => true
  | String _ _ => false
  end.

Fixpoint lstrip (s : string) : string :=
  match s with
  | EmptyString => EmptyString
  | String c r => if is_space c then lstrip r else s
  end.

Fixpoint rstrip (s : string) : string :=
  match s with
  | EmptyString => EmptyString
  | String c r =>
      let r' := rstrip r in
      if is_space c && is_empty r' then EmptyString else String c r'
  end.

Definition strip (s : string) : string := rstrip (lstrip s).

(** [split_from tok s]: the words of [s], the word being read so far
    being [tok]. [str.split()] without argument cuts at runs of white
    space and yields no empty word. *)
Fixpoint split_from (tok : string) (s : string) : list string :=
  match s with
  | EmptyString => if is_empty tok then [] else [tok]
  | String c r =>
      if is_space c
      then (if is_empty tok then split_from EmptyString r
            else tok :: split_from EmptyString r)
      else split_from (tok ++ String c EmptyString) r
  end.

Definition split (s : string) : list string := split_from EmptyString s.

Definition is_digit (c : ascii) : bool :=
  let n := nat_of_ascii c in ((48 <=? n) && (n <=? 57))%nat.

Definition digit_value (c : ascii) : Z := Z.of_nat (nat_of_ascii c) - 48.

(** Decimal digits, a single underscore being allowed between two digits
    (the grammar of [int()] since Python 3.6). [after_digit] tells that
    the previous character was a digit. *)
Fixpoint digits (acc : Z) (after_digit : bool) (s : string) : option Z :=
  match s with
  | EmptyString => if after_digit then Some acc else None
  | String c r =>
      if is_digit c then digits (10 * acc + digit_value c) true r
      else if Ascii.eqb c "_" && after_digit then digits acc false r
      else None
  end.

(** [sys.get_int_max_str_digits()] as CPython 3.11 and later set it by
    default: [int()] refuses a string of more digits, leading zeros
    counted, underscores and sign not. *)
Definition int_max_str_digits : Z := 4300.

Fixpoint count_digits (s : string) : Z :=
  match s with
  | EmptyString => 0
  | String c r => if is_digit c then 1 + count_digits r else count_digits r
  end.

Definition int_of_digits (s : string) : option Z :=
  if int_max_str_digits <? count_digits s then None
  else digits 0 false s.

(** [int(s)] on a word without white space: an optional sign, then
    digits. [None] is the [ValueError] of [int()]. *)
Definition int (s : string) : option Z :=
  match s with
  | String "+" r => int_of_digits r
  | String "-" r => option_map Z.opp (int_of_digits r)
  | _ => int_of_digits s
  end.

Definition parse_num_bytes (num_string : string) : result (option Z) :=
  if is_empty num_string then Ok None
  else
    match split (strip num_string) with
    | [num; unit] =>
        match int num with
        | None => Raise MalformedInput
        | Some num =>
            match units unit with
            | None => Raise InvalidUnit
            | Some u => Ok (Some (num * u))
            end
        end
    | _ => Raise MalformedInput
    end.

(** ** Output of a process *)

Inductive Line : Type :=
| Text (s : string)
| ServerInfo (port : Z)
| ConnectedWith (ip : string) (port : Z) (bind : string) (bind_port : Z)
| ClientConnected (client : option (string * Z)) (serverip : string) (port : Z)
| Header (server : bool)
| IntervalRow (ip : string) (port : Z) (interval_start interval_stop : Z)
              (sent_data : Q) (unit : string) (rate : Q)
| FinalRow (ip : string) (port : Z) (elapsed_time : Q) (data : Q)
           (unit : string) (rate : Q).

(** The namespace built by [argparse]. *)
Record Args : Type := {
  args_server : bool;
  args_bind : string;
  args_port : Z;
  args_format : string;
  args_client : bool;
  args_serverip : string;
  args_time : Z;
  args_interval : Z;
  args_parallel : Z;
  args_num : string }.

Definition print_interval (total_sent last_interval_sent : Z)
    (interval_start interval_stop : Z) (args : Args) : result Line :=
  let interval_sent := total_sent - last_interval_sent in
  match format_size (inject_Z interval_sent) (args_format args) with
  | Raise e => Raise e
  | Ok sent_data =>
      match calculate_rate (inject_Z interval_sent)
                           (inject_Z (args_interval args)) with
      | Raise e => Raise e
      | Ok rate =>
          Ok (IntervalRow (args_serverip args) (args_port args)
                interval_start interval_stop sent_data (args_format args) rate)
      end
  end.

Definition print_header (args : Args) : Line := Header (args_server args).

Definition print_final_result (ip : string) (port : Z) (elapsed_time : Q)
    (data : Q) (rate : Q) (args : Args) : Line :=
  FinalRow ip port elapsed_time data (args_format args) rate.

(** ** The clock

    A process observes time through [time.time()] only. [delay k] is the
    time that passes before its [k]-th reading (the first one counts from
    the epoch); [time.sleep(d)] lets [d] more seconds pass, any longer
    sleep being part of the next delay. *)

Record Clock : Type := { now : Q; ticks : nat }.

Definition epoch : Clock := {| now := 0; ticks := 0 |}.

Definition time_time (delay : nat -> Q) (c : Clock) : Q * Clock :=
  let t := (now c + delay (ticks c))%Q in
  (t, {| now := t; ticks := S (ticks c) |}).

Definition time_sleep (secs : Q) (c : Clock) : Clock :=
  {| now := (now c + secs)%Q; ticks := ticks c |}.

(** ** Server side: [handle_client] *)

Fixpoint startswith (p l : bytes) : bool :=
  match p, l with
  | [], _ => true
  | _ :: _, [] => false
  | x :: p', y :: l' => Byte.eqb x y && startswith p' l'
  end.

(** [p in l] on [bytes]: [p] occurs in [l] as a contiguous run. *)
Fixpoint contains (p l : bytes) : bool :=
  startswith p l ||
  match l with
  | [] => false
  | _ :: l' => contains p l'
  end.

(** An accepted connection: [incoming] lists what the successive calls of
    [recv(BUFFER_SIZE)] return, a call on the exhausted list returning
    [b''] (the peer closed); [outgoing] lists the arguments of the
    successive [sendall] calls. *)
Record Connection : Type := {
  incoming : list bytes;
  outgoing : list bytes;
  closed : bool }.

(** The [while data:] loop, [data] being the chunk last received. *)
Fixpoint receive_loop (data : bytes) (incoming outgoing : list bytes)
    (total_received : Z) : Z * list bytes * list bytes :=
  match data with
  | [] => (total_received, incoming, outgoing)
  | _ :: _ =>
      if contains BYE data
      then (total_received + (len data - len BYE), incoming,
            outgoing ++ [ACK_BYE])
      else
        let total_received := total_received + len data in
        match incoming with
        | [] => (total_received, [], outgoing)
        | data' :: incoming' =>
            receive_loop data' incoming' outgoing total_received
        end
  end.

(** Lines 224-242: the accounting of one session, up to
    [connection.close()]. *)
Definition receive_all (connection : Connection) : Z * Connection :=
  let total_received := 0 in
  let '(data, pending) :=
    match incoming connection with
    | [] => ([], [])
    | d :: rest => (d, rest)
    end in
  let '(total_received, pending, out) :=
    receive_loop data pending (outgoing connection) total_received in
  (total_received,
   {| incoming := pending; outgoing := out; closed := true |}).

Definition handle_client (address : string * Z) (connection : Connection)
    (args : Args) (delay : nat -> Q)
    : list Line * result unit * Connection :=
  let info := [ServerInfo (args_port args);
               ConnectedWith (fst address) (snd address)
                 (args_bind args) (args_port args)] in
  let '(start_time, clk) := time_time delay epoch in
  let '(total_received, connection) := receive_all connection in
  let '(stop_time, clk) := time_time delay clk in
  let elapsed_time := (stop_time - start_time)%Q in
  match format_size (inject_Z total_received) (args_format args) with
  | Raise e => (info, Raise e, connection)
  | Ok received_data =>
      match calculate_rate (inject_Z total_received) elapsed_time with
      | Raise e => (info, Raise e, connection)
      | Ok rate =>
          (info ++
           [print_header args;
            print_final_result (args_bind args) (args_port args)
              elapsed_time received_data rate args;
            Text newline], Ok tt, connection)
      end
  end.

(** ** Client side: [client_connection] *)

(** What [client_socket.recv(1024)] yields after the sentinel was sent:
    [socket.timeout] after the 5 seconds of [settimeout(5)], or bytes. *)
Inductive Reply : Type :=
| TimedOut
| Received (acknowledgement : bytes).

(** The environment of one client process. *)
Record Env : Type := {
  delay : nat -> Q;
  reply : Reply;
  sockname : string * Z }.

(** The state of one client process outside its local variables: its
    clock, the arguments of its successive [sendall] calls, what it
    printed, and whether it closed its socket. *)
Record World : Type := {
  clock : Clock;
  wire : list bytes;
  stdout : list Line;
  sock_closed : bool }.

Definition sendall (data : bytes) (w : World) : World :=
  {| clock := clock w; wire := wire w ++ [data];
     stdout := stdout w; sock_closed := sock_closed w |}.

Definition print (l : Line) (w : World) : World :=
  {| clock := clock w; wire := wire w;
     stdout := stdout w ++ [l]; sock_closed := sock_closed w |}.

Definition close (w : World) : World :=
  {| clock := clock w; wire := wire w;
     stdout := stdout w; sock_closed := true |}.

Definition set_clock (c : Clock) (w : World) : World :=
  {| clock := c; wire := wire w;
     stdout := stdout w; sock_closed := sock_closed w |}.

Definition read_clock (env : Env) (w : World) : Q * World :=
  let '(t, c) := time_time (delay env) (clock w) in (t, set_clock c w).

(** The local variables of [client_connection]. [remaining_bytes] holds
    what [parse_num_bytes] returned, an [int] or [None]. *)
Record Locals : Type := {
  start_time : Q;
  total_sent : Z;
  last_interval_sent : Z;
  data_to_send : bytes;
  interval_start : Z;
  interval_stop : Z;
  remaining_bytes : option Z;
  elapsed_time : Q }.

(** The slice [l[:n]]. *)
Definition slice_to {A : Type} (l : list A) (n : Z) : list A :=
  if 0 <=? n then firstn (Z.to_nat n) l
  else firstn (Z.to_nat (len l + n)) l.

Inductive Step : Type :=
| Continue (l : Locals) (w : World)
| Break (l : Locals) (w : World)
| Throw (e : exn) (l : Locals) (w : World).

(** Lines 454-458: the interval reporter. *)
Definition report_interval (args : Args) (l : Locals) (w : World)
    : result (Locals * World) :=
  if (0 <? args_interval args)
     && Qle_bool (inject_Z (interval_stop l)) (elapsed_time l)
  then
    match print_interval (total_sent l) (last_interval_sent l)
            (interval_start l) (interval_stop l) args with
    | Raise e => Raise e
    | Ok row =>
        Ok ({| start_time := start_time l;
               total_sent := total_sent l;
               last_interval_sent := total_sent l;
               data_to_send := data_to_send l;
               interval_start := interval_stop l;
               interval_stop := interval_stop l + args_interval args;
               remaining_bytes := remaining_bytes l;
               elapsed_time := elapsed_time l |}, print row w)
    end
  else Ok (l, w).

(** Lines 463-470: clamp the chunk to the byte cap, then send it. [None]
    is the [break] of line 465. *)
Definition send_chunk (args : Args) (l : Locals) (w : World)
    : result (option (Locals * World)) :=
  let send (data : bytes) (remaining : option Z) :=
    Some ({| start_time := start_time l;
             total_sent := total_sent l + len data;
             last_interval_sent := last_interval_sent l;
             data_to_send := data;
             interval_start := interval_start l;
             interval_stop := interval_stop l;
             remaining_bytes := remaining;
             elapsed_time := elapsed_time l |}, sendall data w) in
  if is_empty (args_num args) then Ok (send (data_to_send l) (remaining_bytes l))
  else
    match remaining_bytes l with
    | None => Raise TypeError
    | Some remaining =>
        if remaining <=? 0 then Ok None
        else
          let data := slice_to (data_to_send l) remaining in
          Ok (send data (Some (remaining - len data)))
    end.

(** One turn of the [while True:] loop. *)
Definition loop_body (args : Args) (env : Env) (l : Locals) (w : World) : Step :=
  let '(t, w) := read_clock env w in
  let l := {| start_time := start_time l;
              total_sent := total_sent l;
              last_interval_sent := last_interval_sent l;
              data_to_send := data_to_send l;
              interval_start := interval_start l;
              interval_stop := interval_stop l;
              remaining_bytes := remaining_bytes l;
              elapsed_time := (t - start_time l)%Q |} in
  match report_interval args l w with
  | Raise e => Throw e l w
  | Ok (l, w) =>
      if Qle_bool (inject_Z (args_time args)) (elapsed_time l) then Break l w
      else
        match send_chunk args l w with
        | Raise e => Throw e l w
        | Ok None => Break l w
        | Ok (Some (l, w)) => Continue l w
        end
  end.

(** How a run stands: still in the loop when the fuel is spent, returned,
    or left by an uncaught exception. *)
Inductive Status : Type :=
| Running
| Returned
| Uncaught (e : exn).

Fixpoint send_loop (fuel : nat) (args : Args) (env : Env)
    (l : Locals) (w : World) : Status * Locals * World :=
  match fuel with
  | O => (Running, l, w)
  | S fuel =>
      match loop_body args env l w with
      | Continue l w => send_loop fuel args env l w
      | Break l w => (Returned, l, w)
      | Throw e l w => (Uncaught e, l, w)
      end
  end.

Definition min_duration : Q := 1 # 10.

(** A tuple appended to [results_list]. *)
Record SessionResult : Type := {
  result_ip : string;
  result_port : Z;
  result_elapsed_time : Q;
  result_sent_data : Q;
  result_rate : Q }.

Fixpoint bytes_eqb (x y : bytes) : bool :=
  match x, y with
  | [], [] => true
  | c :: x', d :: y' => Byte.eqb c d && bytes_eqb x' y'
  | _, _ => false
  end.

Definition print_client_connection (args : Args) (client_ip : string)
    (client_port : Z) : Line :=
  if 1 <? args_parallel args
  then ClientConnected (Some (client_ip, client_port))
         (args_serverip args) (args_port args)
  else ClientConnected None (args_serverip args) (args_port args).

(** Lines 416-448: connect, initialise the locals, parse the byte cap. *)
Definition session_start (args : Args) (env : Env)
    : result Locals * World :=
  let w := {| clock := epoch; wire := []; stdout := []; sock_closed := false |} in
  let '(start, w) := read_clock env w in
  let w := print (print_client_connection args (fst (sockname env))
                    (snd (sockname env))) w in
  let locals (remaining : option Z) :=
    {| start_time := start;
       total_sent := 0;
       last_interval_sent := 0;
       data_to_send := repeat "0"%byte (Z.to_nat BUFFER_SIZE);
       interval_start := 0;
       interval_stop := args_interval args;
       remaining_bytes := remaining;
       elapsed_time := 0 |} in
  if is_empty (args_num args) then (Ok (locals (Some 0)), w)
  else
    match parse_num_bytes (args_num args) with
    | Raise e => (Raise e, w)
    | Ok remaining => (Ok (locals remaining), w)
    end.

(** Lines 472-503: the floor of [min_duration], the sentinel, the
    acknowledgement. *)
Definition session_finish (args : Args) (env : Env) (l : Locals) (w : World)
    (results_list : list SessionResult)
    : Status * World * list SessionResult :=
  let remaining_duration := (min_duration - elapsed_time l)%Q in
  let w := if negb (Qle_bool remaining_duration 0)
           then set_clock (time_sleep remaining_duration (clock w)) w
           else w in
  let w := sendall BYE w in
  match reply env with
  | TimedOut =>
      let w := print (Text "Error: Timeout while waiting for acknowledgement from server.") w in
      (Returned, close w, results_list)
  | Received acknowledgement =>
      let w := if 0 <? args_interval args
               then print (Text "------------------------------------------------------------") w
               else w in
      if bytes_eqb acknowledgement ACK_BYE then
        let '(t, w) := read_clock env w in
        let elapsed_time := (t - start_time l)%Q in
        match format_size (inject_Z (total_sent l)) (args_format args) with
        | Raise e => (Uncaught e, w, results_list)
        | Ok sent_data =>
            match calculate_rate (inject_Z (total_sent l)) elapsed_time with
            | Raise e => (Uncaught e, w, results_list)
            | Ok rate =>
                (Returned, close w,
                 results_list ++
                 [{| result_ip := args_serverip args;
                     result_port := args_port args;
                     result_elapsed_time := elapsed_time;
                     result_sent_data := sent_data;
                     result_rate := rate |}])
            end
        end
      else
        let w := print (Text "Error: Invalid acknowledgement message received from server.") w in
        (Returned, close w, results_list)
  end.

Definition client_connection (fuel : nat) (args : Args) (env : Env)
    (results_list : list SessionResult)
    : Status * World * list SessionResult :=
  match session_start args env with
  | (Raise e, w) => (Uncaught e, w, results_list)
  | (Ok l, w) =>
      match send_loop fuel args env l w with
      | (Running, _, w) => (Running, w, results_list)
      | (Uncaught e, _, w) => (Uncaught e, w, results_list)
      | (Returned, l, w) => session_finish args env l w results_list
      end
  end.

(** ** The orchestrator: [create_parallel_connections] *)

(** [for conn in range(args.parallel)]: the processes started, by index. *)
Definition processes (args : Args) : list nat :=
  seq 0 (Z.to_nat (args_parallel args)).

(** The sessions run concurrently and share [results_list] only, a list
    proxy of the manager whose [append] is atomic; [order] is the order
    in which the processes reach the end of their session. [None] is a
    [join] that never returns: a session still in its loop. *)
Fixpoint join_all (fuel : nat) (args : Args) (envs : nat -> Env)
    (order : list nat) (results_list : list SessionResult)
    : option (list SessionResult) :=
  match order with
  | [] => Some results_list
  | i :: order =>
      match client_connection fuel args (envs i) results_list with
      | (Running, _, _) => None
      | (_, _, results_list) => join_all fuel args envs order results_list
      end
  end.

Definition print_results (args : Args) (results_list : list SessionResult)
    : list Line :=
  (if 1 <? args_parallel args then [Text newline] else []) ++
  print_header args ::
  map (fun r => print_final_result (result_ip r) (result_port r)
                  (result_elapsed_time r) (result_sent_data r)
                  (result_rate r) args) results_list.

(** What the parent process prints, with the final [results_list]. *)
Definition create_parallel_connections (fuel : nat) (args : Args)
    (envs : nat -> Env) (order : list nat)
    : option (list Line * list SessionResult) :=
  match join_all fuel args envs order [] with
  | None => None
  | Some results_list => Some (print_results args results_list, results_list)
  end.

(** ** The entry point: [main] *)

Inductive Mode : Type := ServerMode | ClientMode.

(** What [main] does with the parsed arguments: what it prints itself,
    the mode it runs, and how it ends, [Some code] being [sys.exit(code)]
    and [None] a plain return. *)
Record MainRun : Type := {
  printed : list Line;
  runs : option Mode;
  sys_exit : option Z }.

Definition main (args : Args) : MainRun :=
  if negb (args_server args) && negb (args_client args) then
    {| printed := [Text "Error: you must run either in server or client mode"];
       runs := None; sys_exit := Some 1 |}
  else if args_server args then
    {| printed := []; runs := Some ServerMode; sys_exit := None |}
  else if 0 <? args_time args then
    {| printed := []; runs := Some ClientMode; sys_exit := None |}
  else
    {| printed := [Text "Error: the -t (time) operation must be greater that 0."];
       runs := None; sys_exit := None |}.

(** The exit status of the interpreter: the argument of [sys.exit], and 0
    when [main] returns. *)
Definition exit_status (r : MainRun) : Z :=
  match sys_exit r with
  | Some code => code
  | None => 0
  end.

(** ** Auxiliary notions of the statements *)

(** A word: not empty, no white space. *)
Fixpoint no_space (s : string) : bool :=
  match s with
  | EmptyString => true
  | String c r => negb (is_space c) && no_space r
  end.

Definition is_word (s : string) : bool := negb (is_empty s) && no_space s.


(** The bytes of a list of chunks. *)
Definition total_len (chunks : list bytes) : Z :=
  fold_right (fun c acc => len c + acc) 0 chunks.

(** A connection on which nothing was sent yet. *)
Definition accepted (chunks : list bytes) : Connection :=
  {| incoming := chunks; outgoing := []; closed := false |}.

(** The namespace of [simpleperf -c -I 10.0.0.2 -t time -i interval
    -n num], the other options at their defaults. *)
Definition client_args (time interval : Z) (num : string) : Args :=
  {| args_server := false; args_bind := "10.0.0.2"; args_port := 8088;
     args_format := "MB"; args_client := true; args_serverip := "10.0.0.2";
     args_time := time; args_interval := interval; args_parallel := 1;
     args_num := num |}.

(** The [k]-th value of [time.time()] in a process that does not sleep,
    and the time elapsed since the first one. *)
Fixpoint reading (delay : nat -> Q) (k : nat) : Q :=
  match k with
  | O => (0 + delay O)%Q
  | S k' => (reading delay k' + delay k)%Q
  end.

Definition elapsed_at (delay : nat -> Q) (k : nat) : Q :=
  (reading delay k - reading delay 0)%Q.

(** The windows of the interval rows of an output, in order. *)
Fixpoint windows (out : list Line) : list (Z * Z) :=
  match out with
  | [] => []
  | IntervalRow _ _ interval_start interval_stop _ _ _ :: out' =>
      (interval_start, interval_stop) :: windows out'
  | _ :: out' => windows out'
  end.

(** The first [n] windows of length [i] from 0. *)
Definition steps (i : Z) (n : nat) : list (Z * Z) :=
  map (fun k => (Z.of_nat k * i, (Z.of_nat k + 1) * i)) (seq 0 n).

(** Windows that are not empty and start where the previous one stops. *)
Fixpoint contiguous (from : Z) (ws : list (Z * Z)) : Prop :=
  match ws with
  | [] => True
  | (a, c) :: ws' => a = from /\ a < c /\ contiguous c ws'
  end.

(** Where a turn of the loop leaves the process. *)
Definition after (s : Step) : Locals * World :=
  match s with
  | Continue l w | Break l w | Throw _ l w => (l, w)
  end.

(** The reporter invariant: [n] rows were printed, their windows are the
    first [n] steps of the interval, and the next window is the step
    after them. *)
Definition reporting (args : Args) (l : Locals) (w : World) : Prop :=
  exists n : nat,
    windows (stdout w) = steps (args_interval args) n /\
    interval_start l = Z.of_nat n * args_interval args /\
    interval_stop l = (Z.of_nat n + 1) * args_interval args.

(** The session up to the end of its send loop; [None] when the byte cap
    does not parse. *)
Definition send_phase (fuel : nat) (args : Args) (env : Env)
    : option (Status * Locals * World) :=
  match session_start args env with
  | (Raise _, _) => None
  | (Ok l, w) => Some (send_loop fuel args env l w)
  end.

(** A clock that advances by [step] seconds between two readings. *)
Definition steady (step : Q) (reply : Reply) : Env :=
  {| delay := fun _ => step; reply := reply;
     sockname := ("10.0.0.1"%string, 50000) |}.

(** The clock of a process that read it [S k] times and did not sleep,
    [start_time] being its first reading. *)
Definition ticked (env : Env) (k : nat) (l : Locals) (w : World) : Prop :=
  ticks (clock w) = S k /\
  now (clock w) = reading (delay env) k /\
  start_time l = reading (delay env) 0.

Definition ticking (env : Env) (l : Locals) (w : World) : Prop :=
  exists k : nat, ticked env k l w.

(** The byte cap [N] in the send loop: what was sent and what remains add
    up to [N], the chunks on the wire are what was sent, and the chunk is
    a full buffer as long as something remains. *)
Definition capped (N : Z) (l : Locals) (w : World) : Prop :=
  exists r : Z,
    remaining_bytes l = Some r /\ 0 <= r /\
    total_sent l + r = N /\
    total_len (wire w) = total_sent l /\
    Forall (fun c => 0 < len c <= BUFFER_SIZE) (wire w) /\
    (len (data_to_send l) = BUFFER_SIZE \/ r = 0).

(** What a session alone leaves in an empty [results_list], and how it
    ends. *)
Definition session_entries (fuel : nat) (args : Args) (env : Env)
    : list SessionResult :=
  snd (client_connection fuel args env []).

Definition session_status (fuel : nat) (args : Args) (env : Env) : Status :=
  fst (fst (client_connection fuel args env [])).

(** The row of a result in the final table. *)
Definition final_row (args : Args) (r : SessionResult) : Line :=
  print_final_result (result_ip r) (result_port r) (result_elapsed_time r)
    (result_sent_data r) (result_rate r) args.

(** The number of header lines of an output. *)
Fixpoint headers (out : list Line) : nat :=
  match out with
  | [] => 0
  | Header _ :: out' => S (headers out')
  | _ :: out' => headers out'
  end.

(** The same namespace with [-P parallel]. *)
Definition with_parallel (parallel : Z) (args : Args) : Args :=
  {| args_server := args_server args; args_bind := args_bind args;
     args_port := args_port args; args_format := args_format args;
     args_client := args_client args; args_serverip := args_serverip args;
     args_time := args_time args; args_interval := args_interval args;
     args_parallel := parallel; args_num := args_num args |}.

(** ** Further notions of the statements *)

(** A string of white space only. *)
Fixpoint all_space (s : string) : bool :=
  match s with
  | EmptyString => true
  | String c r => is_space c && all_space r
  end.

(** A chunk of payload: not empty, one buffer at most, bytes '0' only. *)
Definition payload_chunk (c : bytes) : Prop :=
  c <> [] /\ len c <= BUFFER_SIZE /\ Forall (eq "0"%byte) c.

(** The wire invariant of the send loop: the chunks sent are payload
    chunks, their bytes are [total_sent], and the buffer is a payload
    chunk. *)
Definition wired (l : Locals) (w : World) : Prop :=
  total_len (wire w) = total_sent l /\
  Forall payload_chunk (wire w) /\
  payload_chunk (data_to_send l).

(** The send loop without a byte cap: the buffer is full, and so is
    every chunk sent. *)
Definition full_chunks (l : Locals) (w : World) : Prop :=
  len (data_to_send l) = BUFFER_SIZE /\
  Forall (fun c => len c = BUFFER_SIZE) (wire w) /\
  total_sent l = BUFFER_SIZE * len (wire w).

(** The sizes shown by the interval rows of an output, in order. *)
Fixpoint sizes (out : list Line) : list Q :=
  match out with
  | [] => []
  | IntervalRow _ _ _ _ sent_data _ _ :: out' => sent_data :: sizes out'
  | _ :: out' => sizes out'
  end.

(** The accounting of the reporter, [bs] being the bytes of the reports
    made so far, in order: each row shows [format_size] of its bytes,
    and the bytes add up to the marker, which is behind the total. *)
Definition accounted (args : Args) (bs : list Z) (l : Locals) (w : World)
    : Prop :=
  Forall2 (fun b size =>
             format_size (inject_Z b) (args_format args) = Ok size)
          bs (sizes (stdout w)) /\
  Forall (fun b => 0 <= b) bs /\
  fold_right Z.add 0 bs = last_interval_sent l /\
  last_interval_sent l <= total_sent l.

(** * Properties *)

(** ** Unit converter *)

Lemma units_spec (unit : string) :
  units unit =
    if String.eqb unit "B" then Some 1
    else if String.eqb unit "KB" then Some 1000
    else if String.eqb unit "MB" then Some 1000000
    else None.
Proof. reflexivity. Qed.

Lemma units_positive (unit : string) (u : Z) : units unit = Some u -> 0 < u.
Proof.
  unfold units.
  destruct (String.eqb unit "B"); [intros [= <-]; lia|].
  destruct (String.eqb unit "KB"); [intros [= <-]; lia|].
  destruct (String.eqb unit "MB"); [intros [= <-]; lia|discriminate].
Qed.

(** C8. For every size [x] (so for every non-negative one) [format_size]
    divides by 1 for B, by 1000 for KB and by 1000000 for MB, and the
    size in KB times 1000 is the size in B, over exact arithmetic. *)
Theorem format_size_KB_B (x : Q) :
  exists in_B in_KB in_MB : Q,
    format_size x "B" = Ok in_B /\
    format_size x "KB" = Ok in_KB /\
    format_size x "MB" = Ok in_MB /\
    (in_B == x / 1)%Q /\ (in_KB == x / 1000)%Q /\ (in_MB == x / 1000000)%Q /\
    (in_KB * 1000 == in_B)%Q.
Proof.
  exists (x / inject_Z 1)%Q, (x / inject_Z 1000)%Q, (x / inject_Z 1000000)%Q.
  repeat split; try reflexivity.
  change (inject_Z 1000) with 1000%Q. change (inject_Z 1) with 1%Q.
  field.
Qed.

(** *** Words *)

Lemma append_assoc (x y z : string) : ((x ++ y) ++ z = x ++ (y ++ z))%string.
Proof. induction x as [|c x IH]; simpl; [reflexivity | now rewrite IH]. Qed.

Lemma append_empty_r (x : string) : (x ++ "" = x)%string.
Proof. induction x as [|c x IH]; simpl; [reflexivity | now rewrite IH]. Qed.

Lemma is_empty_append_r (x y : string) :
  is_empty y = false -> is_empty (x ++ y) = false.
Proof. destruct x; simpl; auto. Qed.

Lemma rstrip_no_space (s : string) : no_space s = true -> rstrip s = s.
Proof.
  induction s as [|c r IH]; simpl; [reflexivity|].
  intros H. apply andb_prop in H as [Hc Hr].
  apply negb_true_iff in Hc. rewrite Hc. simpl. now rewrite IH.
Qed.

Lemma rstrip_before_word (x y : string) :
  is_word y = true -> rstrip (x ++ y) = (x ++ y)%string.
Proof.
  intros Hy. apply andb_prop in Hy as [Hne Hy]. apply negb_true_iff in Hne.
  induction x as [|c x IH]; simpl.
  - now apply rstrip_no_space.
  - rewrite IH, (is_empty_append_r x y Hne), andb_false_r. reflexivity.
Qed.

Lemma lstrip_word_first (x y : string) :
  is_word x = true -> lstrip (x ++ y) = (x ++ y)%string.
Proof.
  destruct x as [|c x]; simpl; [discriminate|].
  unfold is_word. simpl. intros H. apply andb_prop in H as [Hc _].
  apply negb_true_iff in Hc. now rewrite Hc.
Qed.

Lemma split_from_no_space (x : string) : forall tok rest,
  no_space x = true ->
  split_from tok (x ++ rest) = split_from (tok ++ x) rest.
Proof.
  induction x as [|c x IH]; intros tok rest H; simpl.
  - now rewrite append_empty_r.
  - simpl in H. apply andb_prop in H as [Hc Hx]. apply negb_true_iff in Hc.
    rewrite Hc, IH by assumption. rewrite append_assoc. reflexivity.
Qed.

(** A number word, a blank and a unit word split in these two words. *)
Lemma split_two_words (num unit : string) :
  is_word num = true -> is_word unit = true ->
  split (strip (num ++ " " ++ unit)) = [num; unit].
Proof.
  intros Hn Hu. unfold strip.
  rewrite (lstrip_word_first num _ Hn).
  replace (num ++ " " ++ unit)%string with ((num ++ " ") ++ unit)%string
    by apply append_assoc.
  rewrite (rstrip_before_word _ _ Hu), append_assoc.
  unfold split.
  pose proof Hn as Hn'. apply andb_prop in Hn' as [Hne Hns].
  pose proof Hu as Hu'. apply andb_prop in Hu' as [Hue Hus].
  rewrite split_from_no_space by assumption. simpl.
  apply negb_true_iff in Hne. rewrite Hne.
  replace unit with (unit ++ "")%string at 1 by apply append_empty_r.
  rewrite split_from_no_space by assumption. simpl.
  apply negb_true_iff in Hue. now rewrite Hue.
Qed.

Lemma digits_no_space (s : string) : forall acc after n,
  digits acc after s = Some n ->
  no_space s = true /\ (after = true \/ is_empty s = false).
Proof.
  induction s as [|c r IH]; intros acc after n; simpl.
  - destruct after; [auto | discriminate].
  - destruct (is_digit c) eqn:Hd.
    + intros H. apply IH in H as [H _]. split; [|auto].
      rewrite H, andb_true_r. apply negb_true_iff.
      unfold is_digit in Hd. unfold is_space. cbv zeta in *.
      apply andb_prop in Hd as [H1 H2].
      apply Nat.leb_le in H1. apply Nat.leb_le in H2.
      destruct (Nat.leb_spec 9 (nat_of_ascii c)),
               (Nat.leb_spec (nat_of_ascii c) 13),
               (Nat.leb_spec 28 (nat_of_ascii c)),
               (Nat.leb_spec (nat_of_ascii c) 32),
               (Nat.eqb_spec (nat_of_ascii c) 133),
               (Nat.eqb_spec (nat_of_ascii c) 160);
        simpl; try reflexivity; lia.
    + destruct (Ascii.eqb c "_") eqn:Hu; simpl; [|discriminate].
      destruct after; simpl; [|discriminate].
      intros H. apply IH in H as [H _]. split; [|auto].
      apply Ascii.eqb_eq in Hu. subst c. now rewrite H.
Qed.

Lemma int_of_digits_some (s : string) (n : Z) :
  int_of_digits s = Some n -> digits 0 false s = Some n.
Proof.
  unfold int_of_digits.
  destruct (int_max_str_digits <? count_digits s); [discriminate | auto].
Qed.

Lemma int_is_word (s : string) (n : Z) : int s = Some n -> is_word s = true.
Proof.
  unfold int, is_word.
  assert (Hd : forall s n, int_of_digits s = Some n ->
                 negb (is_empty s) && no_space s = true).
  { intros s' n' H. apply int_of_digits_some in H.
    apply digits_no_space in H as [H [H'|H']];
      [discriminate | now rewrite H, H']. }
  assert (Hs : forall r m c, is_space c = false ->
                 int_of_digits r = Some m ->
                 negb (is_empty (String c r)) && no_space (String c r) = true).
  { intros r m c Hc H. apply int_of_digits_some in H.
    apply digits_no_space in H as [H _].
    simpl. now rewrite Hc, H. }
  destruct s as [|c r]; [discriminate|].
  destruct c as [[] [] [] [] [] [] [] []]; try (intros H; exact (Hd _ _ H)).
  - intros H. exact (Hs r n "+"%char eq_refl H).
  - destruct (int_of_digits r) eqn:E; [|discriminate].
    intros _. exact (Hs r z "-"%char eq_refl E).
Qed.

Lemma units_is_word (unit : string) (u : Z) :
  units unit = Some u -> is_word unit = true.
Proof.
  unfold units.
  destruct (String.eqb unit "B") eqn:E1;
    [apply String.eqb_eq in E1; now subst|].
  destruct (String.eqb unit "KB") eqn:E2;
    [apply String.eqb_eq in E2; now subst|].
  destruct (String.eqb unit "MB") eqn:E3;
    [apply String.eqb_eq in E3; now subst|discriminate].
Qed.

Lemma parse_num_bytes_words (num unit : string) (n u : Z) :
  int num = Some n -> units unit = Some u ->
  parse_num_bytes (num ++ " " ++ unit) = Ok (Some (n * u)).
Proof.
  intros Hn Hu. unfold parse_num_bytes.
  pose proof (int_is_word _ _ Hn) as Wn.
  pose proof (units_is_word _ _ Hu) as Wu.
  rewrite (split_two_words _ _ Wn Wu), Hn, Hu.
  destruct num; [discriminate | reflexivity].
Qed.

Lemma units_other (unit : string) :
  unit <> "B"%string -> unit <> "KB"%string -> unit <> "MB"%string ->
  units unit = None.
Proof.
  intros H1 H2 H3. unfold units.
  apply String.eqb_neq in H1, H2, H3. now rewrite H1, H2, H3.
Qed.

(** C6. The contract of [parse_num_bytes] ([parse_byte_count] of the
    specification), for every input string [s]: the empty string gives
    [None]; otherwise the string is cut in words, and a wrong number of
    words fails with [MalformedInput], a first word that is not an integer
    fails with [MalformedInput], an integer with a word outside B, KB, MB
    fails with [InvalidUnit], and an integer [n] with a unit of factor [u]
    gives [n * u], the factors being 1, 1000 and 1000000; an integer
    word, a blank and a unit word are cut in these two words. *)
Theorem parse_num_bytes_contract (s : string) :
  (s = ""%string -> parse_num_bytes s = Ok None) /\
  (s <> ""%string ->
   List.length (split (strip s)) <> 2%nat ->
   parse_num_bytes s = Raise MalformedInput) /\
  (s <> ""%string ->
   forall num unit : string, split (strip s) = [num; unit] ->
     (int num = None -> parse_num_bytes s = Raise MalformedInput) /\
     (forall n : Z, int num = Some n -> units unit = None ->
        parse_num_bytes s = Raise InvalidUnit) /\
     (forall n u : Z, int num = Some n -> units unit = Some u ->
        parse_num_bytes s = Ok (Some (n * u)))) /\
  (forall (num unit : string) (n : Z),
     s = (num ++ " " ++ unit)%string -> int num = Some n ->
     is_word unit = true ->
     split (strip s) = [num; unit] /\
     (unit = "B"%string -> parse_num_bytes s = Ok (Some n)) /\
     (unit = "KB"%string -> parse_num_bytes s = Ok (Some (n * 1000))) /\
     (unit = "MB"%string -> parse_num_bytes s = Ok (Some (n * 1000000))) /\
     (unit <> "B"%string -> unit <> "KB"%string -> unit <> "MB"%string ->
      parse_num_bytes s = Raise InvalidUnit)).
Proof.
  assert (Hne : s <> ""%string -> is_empty s = false)
    by (destruct s; [congruence | reflexivity]).
  split; [intros ->; reflexivity|].
  split.
  { intros H Hl. unfold parse_num_bytes. rewrite (Hne H).
    destruct (split (strip s)) as [|x [|y [|z l]]]; try reflexivity.
    now elim Hl. }
  split.
  { intros H num unit Hs. unfold parse_num_bytes. rewrite (Hne H), Hs.
    split; [intros ->; reflexivity|].
    split; [intros n -> ->; reflexivity | intros n u -> ->; reflexivity]. }
  intros num unit n -> Hn Wu.
  pose proof (int_is_word _ _ Hn) as Wn.
  pose proof (split_two_words _ _ Wn Wu) as Hs.
  split; [exact Hs|].
  assert (Hp : parse_num_bytes (num ++ " " ++ unit) =
               match units unit with
               | Some u => Ok (Some (n * u))
               | None => Raise InvalidUnit
               end).
  { unfold parse_num_bytes. rewrite Hs, Hn.
    destruct num; [discriminate | reflexivity]. }
  rewrite Hp.
  split; [intros ->; simpl; now rewrite Z.mul_1_r|].
  split; [intros ->; reflexivity|].
  split; [intros ->; reflexivity|].
  intros H1 H2 H3. now rewrite units_other.
Qed.

(** The examples of the specification, from the contract. *)
Lemma parse_num_bytes_contract_witness :
  parse_num_bytes "" = Ok None /\
  parse_num_bytes "20000 B" = Ok (Some 20000) /\
  parse_num_bytes "3 KB" = Ok (Some (3 * 1000)) /\
  parse_num_bytes "5 XB" = Raise InvalidUnit /\
  parse_num_bytes "5.0 KB" = Raise MalformedInput /\
  parse_num_bytes "5" = Raise MalformedInput.
Proof.
  split; [exact (proj1 (parse_num_bytes_contract "") eq_refl)|].
  split.
  { destruct (parse_num_bytes_contract "20000 B") as (_ & _ & _ & D).
    destruct (D "20000"%string "B"%string 20000 eq_refl eq_refl eq_refl)
      as (_ & HB & _).
    exact (HB eq_refl). }
  split.
  { destruct (parse_num_bytes_contract "3 KB") as (_ & _ & _ & D).
    destruct (D "3"%string "KB"%string 3 eq_refl eq_refl eq_refl)
      as (_ & _ & HKB & _).
    exact (HKB eq_refl). }
  split.
  { destruct (parse_num_bytes_contract "5 XB") as (_ & _ & _ & D).
    destruct (D "5"%string "XB"%string 5 eq_refl eq_refl eq_refl)
      as (_ & _ & _ & _ & HX).
    apply HX; discriminate. }
  split.
  { destruct (parse_num_bytes_contract "5.0 KB") as (_ & _ & C & _).
    assert (H : "5.0 KB"%string <> ""%string) by discriminate.
    destruct (C H "5.0"%string "KB"%string eq_refl) as (Hm & _).
    exact (Hm eq_refl). }
  destruct (parse_num_bytes_contract "5") as (_ & B & _).
  apply B; [discriminate | simpl; lia].
Defined.

(** ** Server side *)

Lemma contains_nil (p : bytes) : p <> [] -> contains p [] = false.
Proof. destruct p; [congruence | reflexivity]. Qed.

Lemma receive_loop_eq (data : bytes) (incoming outgoing : list bytes)
    (total_received : Z) :
  receive_loop data incoming outgoing total_received =
  match data with
  | [] => (total_received, incoming, outgoing)
  | _ :: _ =>
      if contains BYE data
      then (total_received + (len data - len BYE), incoming,
            outgoing ++ [ACK_BYE])
      else
        match incoming with
        | [] => (total_received + len data, [], outgoing)
        | data' :: incoming' =>
            receive_loop data' incoming' outgoing (total_received + len data)
        end
  end.
Proof. destruct incoming; reflexivity. Qed.

Lemma receive_loop_sentinel (s : bytes) (rest out : list bytes) (total : Z) :
  contains BYE s = true ->
  receive_loop s rest out total =
    (total + (len s - 3), rest, out ++ [ACK_BYE]).
Proof.
  intros H. destruct s as [|c s]; [discriminate|].
  rewrite receive_loop_eq, H. reflexivity.
Qed.

Lemma receive_loop_chunks (pre : list bytes) :
  forall (d s : bytes) (rest out : list bytes) (total : Z),
  Forall (fun c => c <> [] /\ contains BYE c = false) (d :: pre) ->
  contains BYE s = true ->
  receive_loop d (pre ++ s :: rest) out total =
    (total + total_len (d :: pre) + (len s - 3), rest, out ++ [ACK_BYE]).
Proof.
  induction pre as [|d' pre IH]; intros d s rest out total Hall Hs;
    inversion Hall as [|? ? [Hd Hc] Hpre]; subst;
    destruct d as [|c0 d]; try congruence.
  - simpl app. rewrite receive_loop_eq, Hc.
    rewrite receive_loop_sentinel by assumption.
    unfold total_len. cbn [fold_right]. repeat (f_equal; try lia).
  - simpl app. rewrite receive_loop_eq, Hc.
    rewrite (IH d' s rest out _ Hpre Hs).
    unfold total_len. cbn [fold_right]. repeat (f_equal; try lia).
Qed.

Lemma receive_loop_no_sentinel (pending : list bytes) :
  forall (d : bytes) (out : list bytes) (total : Z),
  Forall (fun c => c <> [] /\ contains BYE c = false) (d :: pending) ->
  receive_loop d pending out total =
    (total + total_len (d :: pending), [], out).
Proof.
  induction pending as [|d' pending IH]; intros d out total Hall;
    inversion Hall as [|? ? [Hd Hc] Hp]; subst; destruct d as [|c0 d];
    try congruence; rewrite receive_loop_eq, Hc.
  - unfold total_len. cbn [fold_right]. repeat (f_equal; try lia).
  - rewrite (IH d' out _ Hp).
    unfold total_len. cbn [fold_right]. repeat (f_equal; try lia).
Qed.

(** Without the sentinel every chunk is credited in full and nothing is
    sent: the acknowledgement goes out upon BYE only. *)
Lemma receive_all_no_sentinel (chunks : list bytes) :
  Forall (fun c => c <> [] /\ contains BYE c = false) chunks ->
  receive_all (accepted chunks) =
    (total_len chunks, {| incoming := []; outgoing := []; closed := true |}).
Proof.
  intros H. unfold receive_all, accepted. cbn [incoming outgoing].
  destruct chunks as [|d pending]; cbv iota beta.
  - reflexivity.
  - rewrite (receive_loop_no_sentinel pending d [] 0 H). reflexivity.
Qed.

(** C1. Server-side accounting. When the chunks received before the first
    one that contains BYE are [pre] (none empty, none with BYE) and that
    one is [s], the session credits the full length of each chunk of
    [pre] and the length of [s] minus 3, sends the 8 bytes ACK: BYE once,
    and receives nothing after [s]: what follows, [rest], is left unread
    and the connection is closed. [handle_client] leaves the connection
    in that state whatever it prints. The chunks [pre] alone, without a
    sentinel after them, are credited in full and get no
    acknowledgement. *)
Theorem handle_client_accounting
    (pre : list bytes) (s : bytes) (rest : list bytes) :
  Forall (fun c => c <> [] /\ contains BYE c = false) pre ->
  contains BYE s = true ->
  receive_all (accepted (pre ++ s :: rest)) =
    (total_len pre + (len s - 3),
     {| incoming := rest; outgoing := [ACK_BYE]; closed := true |}) /\
  len ACK_BYE = 8 /\ len BYE = 3 /\
  (forall address args delay,
     snd (handle_client address (accepted (pre ++ s :: rest)) args delay) =
       {| incoming := rest; outgoing := [ACK_BYE]; closed := true |}) /\
  receive_all (accepted pre) =
    (total_len pre, {| incoming := []; outgoing := []; closed := true |}).
Proof.
  intros Hpre Hs.
  assert (E : receive_all (accepted (pre ++ s :: rest)) =
    (total_len pre + (len s - 3),
     {| incoming := rest; outgoing := [ACK_BYE]; closed := true |})).
  { unfold receive_all, accepted. cbn [incoming outgoing].
    destruct pre as [|d pre]; simpl app; cbv iota beta.
    - rewrite receive_loop_sentinel by assumption. reflexivity.
    - rewrite (receive_loop_chunks pre d s rest [] 0 Hpre Hs). reflexivity. }
  split; [exact E|]. split; [reflexivity|]. split; [reflexivity|].
  split; [|now apply receive_all_no_sentinel].
  intros address args dl. unfold handle_client.
  destruct (time_time dl epoch) as [t0 c0]. rewrite E.
  destruct (time_time dl c0) as [t1 c1].
  destruct (format_size _ _); [|reflexivity].
  destruct (calculate_rate _ _); reflexivity.
Qed.

Lemma handle_client_accounting_witness :
  receive_all (accepted [b "0000"; b "00"; b "00BYE"; b "late"]) =
    (4 + (2 + 0) + (5 - 3),
     {| incoming := [b "late"]; outgoing := [ACK_BYE]; closed := true |}).
Proof.
  refine (proj1 (handle_client_accounting [b "0000"; b "00"] (b "00BYE")
                   [b "late"] _ eq_refl)).
  repeat constructor; discriminate.
Defined.

(** ** Entry point *)

Lemma main_no_mode (args : Args) :
  args_server args = false -> args_client args = false ->
  exit_status (main args) = 1 /\
  printed (main args) =
    [Text "Error: you must run either in server or client mode"] /\
  runs (main args) = None.
Proof. intros Hs Hc. unfold main. rewrite Hs, Hc. now repeat split. Qed.

(** C4, at the failing input [-c -t 0]: the error message is printed and
    no mode is run, but [main] returns without [sys.exit], so the exit
    status is 0. *)
Theorem main_nonpositive_time_returns :
  printed (main (client_args 0 0 "")) =
    [Text "Error: the -t (time) operation must be greater that 0."] /\
  runs (main (client_args 0 0 "")) = None /\
  sys_exit (main (client_args 0 0 "")) = None /\
  exit_status (main (client_args 0 0 "")) = 0.
Proof. now repeat split. Qed.

(** ** Client side: the send loop *)

Section SendLoop.

Variables (args : Args) (env : Env).

(** A property kept by every turn holds wherever the loop stands. *)
Lemma send_loop_invariant (P : Locals -> World -> Prop) :
  (forall l w, P l w ->
     P (fst (after (loop_body args env l w)))
       (snd (after (loop_body args env l w)))) ->
  forall fuel l w, P l w ->
    P (snd (fst (send_loop fuel args env l w)))
      (snd (send_loop fuel args env l w)).
Proof.
  intros Hstep. induction fuel as [|fuel IH]; intros l w H; simpl.
  - exact H.
  - specialize (Hstep l w H).
    destruct (loop_body args env l w) as [l' w'|l' w'|e l' w']; simpl in *.
    + now apply IH.
    + exact Hstep.
    + exact Hstep.
Qed.

Lemma print_interval_ok (total last a c u : Z) :
  0 < args_interval args -> units (args_format args) = Some u ->
  exists sent_data rate,
    print_interval total last a c args =
      Ok (IntervalRow (args_serverip args) (args_port args) a c
            sent_data (args_format args) rate).
Proof.
  intros Hi Hu. unfold print_interval, format_size, calculate_rate.
  rewrite Hu.
  destruct (Qeq_bool (inject_Z (args_interval args)) 0) eqn:E.
  - apply Qeq_bool_eq in E. unfold Qeq in E. simpl in E. lia.
  - eauto.
Qed.

Lemma print_interval_row (total last a c : Z) (row : Line) :
  print_interval total last a c args = Ok row ->
  windows [row] = [(a, c)].
Proof.
  unfold print_interval.
  destruct (format_size _ _); [|discriminate].
  destruct (calculate_rate _ _); [|discriminate].
  now intros [= <-].
Qed.

Lemma windows_app (x y : list Line) :
  windows (x ++ y) = windows x ++ windows y.
Proof.
  induction x as [|r x IH]; [reflexivity|].
  destruct r; simpl; rewrite ?IH; reflexivity.
Qed.

(** What the interval reporter does to the locals and to the output. *)
Lemma report_interval_cases (l : Locals) (w : World) :
  match report_interval args l w with
  | Raise _ => 0 < args_interval args
  | Ok (l', w') =>
      (l' = l /\ w' = w /\
       (args_interval args <= 0 \/
        ~ (inject_Z (interval_stop l) <= elapsed_time l)%Q)) \/
      (0 < args_interval args /\
       (inject_Z (interval_stop l) <= elapsed_time l)%Q /\
       (exists row,
          print_interval (total_sent l) (last_interval_sent l)
            (interval_start l) (interval_stop l) args = Ok row /\
          w' = print row w) /\
       l' = {| start_time := start_time l;
               total_sent := total_sent l;
               last_interval_sent := total_sent l;
               data_to_send := data_to_send l;
               interval_start := interval_stop l;
               interval_stop := interval_stop l + args_interval args;
               remaining_bytes := remaining_bytes l;
               elapsed_time := elapsed_time l |})
  end.
Proof.
  unfold report_interval.
  destruct (0 <? args_interval args) eqn:Hi; simpl.
  - apply Z.ltb_lt in Hi.
    destruct (Qle_bool _ _) eqn:Hq.
    + apply Qle_bool_iff in Hq.
      destruct (print_interval _ _ _ _ _) as [row|e] eqn:Hp; [|exact Hi].
      right. repeat split; eauto.
    + left. repeat split. right. intros H. apply Qle_bool_iff in H. congruence.
  - apply Z.ltb_ge in Hi. left. auto.
Qed.

(** The send step leaves the output and the interval variables alone. *)
Lemma send_chunk_frame (l l' : Locals) (w w' : World) :
  send_chunk args l w = Ok (Some (l', w')) ->
  stdout w' = stdout w /\ clock w' = clock w /\
  sock_closed w' = sock_closed w /\
  start_time l' = start_time l /\
  last_interval_sent l' = last_interval_sent l /\
  interval_start l' = interval_start l /\
  interval_stop l' = interval_stop l /\
  elapsed_time l' = elapsed_time l /\
  wire w' = wire w ++ [data_to_send l'] /\
  total_sent l' = total_sent l + len (data_to_send l').
Proof.
  unfold send_chunk.
  destruct (is_empty (args_num args)).
  - intros [= <- <-]. simpl. repeat split.
  - destruct (remaining_bytes l) as [r|]; [|discriminate].
    destruct (r <=? 0); [discriminate|].
    intros [= <- <-]. simpl. repeat split.
Qed.

Lemma steps_S (i : Z) (n : nat) :
  steps i (S n) = steps i n ++ [(Z.of_nat n * i, (Z.of_nat n + 1) * i)].
Proof. unfold steps. now rewrite seq_S, map_app. Qed.

Lemma report_interval_reporting (l : Locals) (w : World) :
  reporting args l w ->
  match report_interval args l w with
  | Raise _ => True
  | Ok (l', w') => reporting args l' w'
  end.
Proof.
  intros (n & Hw & Ha & Hc).
  pose proof (report_interval_cases l w) as H.
  destruct (report_interval args l w) as [[l' w']|e]; [|exact I].
  destruct H as [(-> & -> & _) | (Hi & _ & (row & Hrow & ->) & ->)].
  - now exists n.
  - exists (S n). unfold print. cbn [stdout interval_start interval_stop].
    rewrite windows_app, Hw, steps_S.
    rewrite (print_interval_row _ _ _ _ _ Hrow), Ha, Hc.
    repeat split; lia.
Qed.

Lemma loop_body_reporting (l : Locals) (w : World) :
  reporting args l w ->
  reporting args (fst (after (loop_body args env l w)))
            (snd (after (loop_body args env l w))).
Proof.
  intros H. unfold loop_body, read_clock, time_time.
  match goal with
  | |- context [report_interval args ?l0 ?w0] =>
      assert (H0 : reporting args l0 w0) by exact H;
      pose proof (report_interval_reporting l0 w0 H0) as H1;
      destruct (report_interval args l0 w0) as [[l1 w1]|e]
  end; [|exact H0].
  destruct (Qle_bool _ _); [exact H1|].
  destruct (send_chunk args l1 w1) as [[[l2 w2]|]|e] eqn:Hs;
    [|exact H1|exact H1].
  apply send_chunk_frame in Hs as (Ho & _ & _ & _ & _ & Ha & Hc & _).
  destruct H1 as (n & Hw & Ha' & Hc'). exists n. simpl.
  now rewrite Ho, Ha, Hc.
Qed.

(** Without an interval nothing is reported. *)
Lemma loop_body_silent (l : Locals) (w : World) :
  args_interval args <= 0 ->
  windows (stdout (snd (after (loop_body args env l w)))) =
  windows (stdout w).
Proof.
  intros Hi. unfold loop_body, read_clock, time_time.
  match goal with
  | |- context [report_interval args ?l0 ?w0] =>
      pose proof (report_interval_cases l0 w0) as H1;
      destruct (report_interval args l0 w0) as [[l1 w1]|e]
  end; [|lia].
  destruct H1 as [(-> & -> & _) | (Hi' & _)]; [|lia].
  destruct (Qle_bool _ _); [reflexivity|].
  match goal with
  | |- context [send_chunk args ?l0 ?w0] =>
      destruct (send_chunk args l0 w0) as [[[l2 w2]|]|e] eqn:Hs
  end; try reflexivity.
  apply send_chunk_frame in Hs as (Ho & _). simpl. now rewrite Ho.
Qed.

Lemma steps_contiguous (i : Z) (n : nat) :
  0 < i -> forall m : nat, contiguous (Z.of_nat m * i)
    (map (fun k => (Z.of_nat k * i, (Z.of_nat k + 1) * i)) (seq m n)).
Proof.
  intros Hi. induction n as [|n IH]; intros m; simpl; [exact I|].
  split; [reflexivity|]. split; [lia|].
  replace ((Z.of_nat m + 1) * i) with (Z.of_nat (S m) * i) by lia.
  apply IH.
Qed.

End SendLoop.

Lemma session_start_reporting (args : Args) (env : Env) (l : Locals) (w : World) :
  session_start args env = (Ok l, w) ->
  reporting args l w /\ windows (stdout w) = [].
Proof.
  unfold session_start, read_clock, time_time, print_client_connection.
  destruct (1 <? args_parallel args);
  destruct (is_empty (args_num args)).
  all: try (destruct (parse_num_bytes (args_num args)); [|discriminate]).
  all: intros [= <- <-]; (split; [exists 0%nat; repeat split|]);
         first [reflexivity | cbn [interval_start interval_stop]; lia].
Qed.

(** The end of a session prints no interval row. *)
Lemma client_connection_windows (fuel : nat) (args : Args) (env : Env)
    (st : Status) (l : Locals) (w : World) (rs : list SessionResult) :
  send_phase fuel args env = Some (st, l, w) ->
  windows (stdout (snd (fst (client_connection fuel args env rs)))) =
  windows (stdout w).
Proof.
  unfold send_phase, client_connection.
  destruct (session_start args env) as [[l0|e] w0]; [|discriminate].
  intros [= ->]. destruct st; try reflexivity.
  unfold session_finish, read_clock, time_time.
  destruct (negb _), (reply env) as [|ack];
    try destruct (0 <? args_interval args);
    try destruct (bytes_eqb ack ACK_BYE);
    try destruct (format_size _ _);
    try destruct (calculate_rate _ _);
    cbn [fst snd stdout close print sendall set_clock];
    rewrite ?windows_app; cbn [windows]; rewrite ?app_nil_r; reflexivity.
Qed.

(** C7. The interval reporter within one session, wherever the send loop
    stands: with an interval of 0 (or less) no interval row is printed;
    with a positive interval [i] the windows of the rows printed so far
    are [0, i), [i, 2i), ... in this order, each one not empty and
    starting where the previous one stops, and the next window to report
    is the one after them; the end of the session adds no row. A report
    that fires prints the current window
    with the bytes sent since the marker, moves the marker to the current
    total, and moves both ends of the window by [i]. *)
Theorem interval_reporting (fuel : nat) (args : Args) (env : Env)
    (st : Status) (l : Locals) (w : World) :
  send_phase fuel args env = Some (st, l, w) ->
  (args_interval args <= 0 -> windows (stdout w) = []) /\
  (forall results_list,
     windows (stdout (snd (fst (client_connection fuel args env
                                  results_list)))) = windows (stdout w)) /\
  (0 < args_interval args ->
   exists n : nat,
     windows (stdout w) = steps (args_interval args) n /\
     contiguous 0 (windows (stdout w)) /\
     interval_start l = Z.of_nat n * args_interval args /\
     interval_stop l = interval_start l + args_interval args) /\
  (forall (l0 l1 : Locals) (w0 w1 : World),
     0 < args_interval args ->
     (inject_Z (interval_stop l0) <= elapsed_time l0)%Q ->
     interval_stop l0 = interval_start l0 + args_interval args ->
     report_interval args l0 w0 = Ok (l1, w1) ->
     windows (stdout w1) =
       windows (stdout w0) ++ [(interval_start l0, interval_stop l0)] /\
     print_interval (total_sent l0) (last_interval_sent l0)
       (interval_start l0) (interval_stop l0) args
       = Ok (last (stdout w1) (Text "")) /\
     last_interval_sent l1 =
       last_interval_sent l0 + (total_sent l0 - last_interval_sent l0) /\
     interval_start l1 = interval_start l0 + args_interval args /\
     interval_stop l1 = interval_stop l0 + args_interval args).
Proof.
  intros H.
  pose proof (fun rs => client_connection_windows fuel args env st l w rs H)
    as Hend.
  unfold send_phase in H.
  destruct (session_start args env) as [[l0 | e] w0] eqn:Hs; [|discriminate].
  injection H as H.
  apply session_start_reporting in Hs as [Hr Hw].
  split; [|split; [exact Hend|split]].
  - intros Hi.
    pose proof (send_loop_invariant args env
                  (fun _ w => windows (stdout w) = []) ) as Hinv.
    replace w with (snd (send_loop fuel args env l0 w0)) by now rewrite H.
    apply Hinv; [|exact Hw].
    intros l1 w1 H1. now rewrite loop_body_silent.
  - intros Hi.
    pose proof (send_loop_invariant args env (reporting args)
                  (loop_body_reporting args env) fuel l0 w0 Hr) as Hinv.
    rewrite H in Hinv. simpl in Hinv.
    destruct Hinv as (n & Hn & Ha & Hc). exists n.
    split; [exact Hn|]. split; [|split; [exact Ha|lia]].
    rewrite Hn. exact (steps_contiguous _ n Hi 0%nat).
  - intros l1 l2 w1 w2 Hi Hq Hinv Hrep.
    pose proof (report_interval_cases args l1 w1) as Hc.
    rewrite Hrep in Hc.
    destruct Hc as [(_ & _ & [Hc|Hc]) | (_ & _ & (row & Hrow & ->) & ->)];
      [lia | contradiction |].
    unfold print. cbn [stdout last_interval_sent interval_start interval_stop].
    rewrite windows_app, (print_interval_row _ _ _ _ _ _ Hrow), last_last.
    repeat split; try assumption; lia.
Qed.

Lemma interval_reporting_witness :
  match send_phase 10 (client_args 3 1 "") (steady 1 TimedOut) with
  | Some (st, l, w) =>
      st = Returned /\
      exists n : nat,
        windows (stdout w) = steps 1 n /\
        contiguous 0 (windows (stdout w)) /\
        interval_start l = Z.of_nat n * 1 /\
        interval_stop l = interval_start l + 1
  | None => False
  end.
Proof.
  destruct (send_phase 10 (client_args 3 1 "") (steady 1 TimedOut))
    as [[[st l] w]|] eqn:E.
  - split; [vm_compute in E; congruence|].
    apply (proj1 (proj2 (proj2 (interval_reporting _ _ _ _ _ _ E)))).
    reflexivity.
  - vm_compute in E. discriminate.
Defined.

(** ** Client side: the byte cap *)

Lemma total_len_app (x y : list bytes) :
  total_len (x ++ y) = total_len x + total_len y.
Proof.
  unfold total_len. induction x as [|c x IH]; simpl fold_right; [lia|].
  cbn [app fold_right]. lia.
Qed.

Lemma total_len_nonneg (x : list bytes) : 0 <= total_len x.
Proof.
  unfold total_len, len. induction x as [|c x IH]; cbn [fold_right]; lia.
Qed.

Lemma total_len_firstn (n : nat) (x : list bytes) :
  total_len (firstn n x) <= total_len x.
Proof.
  rewrite <- (firstn_skipn n x) at 2. rewrite total_len_app.
  pose proof (total_len_nonneg (skipn n x)). lia.
Qed.

Lemma len_slice_to {A : Type} (l : list A) (n : Z) :
  0 < n -> len (slice_to l n) = Z.min n (len l).
Proof.
  intros Hn. unfold slice_to, len.
  destruct (0 <=? n) eqn:E; [|apply Z.leb_gt in E; lia].
  rewrite length_firstn. lia.
Qed.

Section ByteCap.

Variables (args : Args) (env : Env) (N u : Z) (horizon : nat).
Hypothesis Hnum : is_empty (args_num args) = false.
Hypothesis Hformat : units (args_format args) = Some u.
Hypothesis Hclock : forall k : nat, (k <= horizon)%nat ->
  (elapsed_at (delay env) k < inject_Z (args_time args))%Q.

(** With a valid unit the reporter does not raise, and it leaves the
    transfer alone. *)
Lemma report_interval_frame (l : Locals) (w : World) :
  exists l' w',
    report_interval args l w = Ok (l', w') /\
    start_time l' = start_time l /\ total_sent l' = total_sent l /\
    data_to_send l' = data_to_send l /\
    remaining_bytes l' = remaining_bytes l /\
    elapsed_time l' = elapsed_time l /\
    wire w' = wire w /\ clock w' = clock w /\
    sock_closed w' = sock_closed w.
Proof.
  pose proof (report_interval_cases args l w) as H.
  destruct (report_interval args l w) as [[l' w']|e] eqn:E0.
  - exists l', w'. split; [reflexivity|].
    destruct H as [(-> & -> & _) | (_ & _ & (row & _ & ->) & ->)];
      simpl; repeat split.
  - exfalso. unfold report_interval in E0.
    destruct (_ && _); [|discriminate].
    destruct (print_interval_ok args (total_sent l) (last_interval_sent l)
                (interval_start l) (interval_stop l) u H Hformat)
      as (sd & rate & E).
    rewrite E in E0. discriminate.
Qed.

Lemma capped_run : forall (fuel : nat) (l : Locals) (w : World) (r : Z),
  capped N l w -> ticking env l w ->
  (ticks (clock w) - 1 + fuel <= horizon)%nat ->
  remaining_bytes l = Some r ->
  r <= BUFFER_SIZE * (Z.of_nat fuel - 1) ->
  exists l' w',
    send_loop fuel args env l w = (Returned, l', w') /\
    capped N l' w' /\ remaining_bytes l' = Some 0.
Proof.
  induction fuel as [|fuel IH]; intros l w r Hcap Htick Hhor Hr Hfuel.
  - destruct Hcap as (r' & Hr' & Hpos & _). unfold BUFFER_SIZE in *.
    rewrite Hr in Hr'. injection Hr' as <-. lia.
  - destruct Htick as (k & Hk & Hnow & Hstart).
    cbn [send_loop]. unfold loop_body, read_clock, time_time.
    rewrite Hk, Hnow, Hstart.
    change (reading (delay env) k + delay env (S k))%Q
      with (reading (delay env) (S k)).
    change (reading (delay env) (S k) - reading (delay env) 0)%Q
      with (elapsed_at (delay env) (S k)).
    match goal with
    | |- context [report_interval args ?l0 ?w0] =>
        destruct (report_interval_frame l0 w0)
          as (l1 & w1 & -> & Hs1 & Ht1 & Hd1 & Hr1 & He1 & Hw1 & Hc1 & _)
    end.
    cbn [start_time total_sent data_to_send remaining_bytes elapsed_time
         wire clock set_clock] in Hs1, Ht1, Hd1, Hr1, He1, Hw1, Hc1.
    rewrite He1.
    destruct (Qle_bool _ _) eqn:Hq.
    { apply Qle_bool_iff in Hq.
      assert (Hk' : (S k <= horizon)%nat) by lia.
      pose proof (Hclock (S k) Hk'). lra. }
    destruct Hcap as (r' & Hr' & Hpos & Hsum & Hwire & Hall & Hbuf).
    rewrite Hr in Hr'. injection Hr' as <-.
    unfold send_chunk. rewrite Hnum, Hr1, Hr.
    destruct (r <=? 0) eqn:Hle.
    + apply Z.leb_le in Hle. assert (r = 0) by lia. subst r.
      exists l1, w1. split; [reflexivity|]. split; [|now rewrite Hr1].
      exists 0. rewrite Hr1, Ht1, Hd1, Hw1. repeat split; auto.
    + apply Z.leb_gt in Hle.
      destruct Hbuf as [Hbuf|Hbuf]; [|lia].
      pose proof (len_slice_to (data_to_send l1) r Hle) as Hlen.
      rewrite <- Hd1 in Hbuf. rewrite Hbuf in Hlen. unfold BUFFER_SIZE in *.
      match goal with
      | |- context [send_loop fuel args env ?l2 ?w2] =>
          apply (IH l2 w2 (r - len (slice_to (data_to_send l1) r)))
      end.
      * exists (r - len (slice_to (data_to_send l1) r)).
        unfold sendall. cbn [remaining_bytes total_sent wire data_to_send].
        rewrite total_len_app, Hw1, Ht1, Hlen.
        unfold total_len at 2. cbn [fold_right]. rewrite Hlen.
        unfold BUFFER_SIZE. repeat split; try lia.
        apply Forall_app. split; [exact Hall|].
        constructor; [|constructor]. rewrite Hlen. lia.
      * exists (S k). unfold sendall. cbn [clock start_time].
        rewrite Hc1, Hs1. repeat split.
      * unfold sendall. cbn [clock]. rewrite Hc1. cbn [ticks]. lia.
      * reflexivity.
      * rewrite Hlen. lia.
Qed.

End ByteCap.

Lemma session_start_capped (args : Args) (env : Env) (N : Z) :
  parse_num_bytes (args_num args) = Ok (Some N) -> 0 <= N ->
  is_empty (args_num args) = false /\
  exists l w,
    session_start args env = (Ok l, w) /\
    capped N l w /\ ticking env l w /\ ticks (clock w) = 1%nat /\
    remaining_bytes l = Some N.
Proof.
  intros Hp HN.
  assert (He : is_empty (args_num args) = false).
  { destruct (is_empty (args_num args)) eqn:E; [|reflexivity].
    unfold parse_num_bytes in Hp. rewrite E in Hp. discriminate. }
  split; [exact He|].
  unfold session_start, read_clock, time_time. rewrite He, Hp.
  eexists _, _. split; [reflexivity|].
  split; [|split; [|split; reflexivity]].
  - exists N. unfold print, set_clock.
    cbn [remaining_bytes total_sent wire data_to_send].
    split; [reflexivity|]. split; [exact HN|]. split; [lia|].
    split; [reflexivity|]. split; [constructor|]. left.
    unfold len. rewrite repeat_length. apply Z2Nat.id. discriminate.
  - exists 0%nat. unfold print, set_clock. cbn [clock ticks now start_time].
    repeat split.
Qed.

Lemma session_finish_wire (args : Args) (env : Env) (l : Locals) (w : World)
    (results_list : list SessionResult) :
  wire (snd (fst (session_finish args env l w results_list))) =
  wire w ++ [BYE].
Proof.
  unfold session_finish, read_clock, time_time.
  destruct (negb _), (reply env) as [|ack];
    try destruct (0 <? args_interval args);
    try destruct (bytes_eqb ack ACK_BYE);
    try destruct (format_size _ _);
    try destruct (calculate_rate _ _); reflexivity.
Qed.

Lemma client_connection_returned (fuel : nat) (args : Args) (env : Env)
    (l : Locals) (w : World) (results_list : list SessionResult) :
  send_phase fuel args env = Some (Returned, l, w) ->
  client_connection fuel args env results_list =
  session_finish args env l w results_list.
Proof.
  unfold send_phase, client_connection.
  destruct (session_start args env) as [[l0|e] w0]; [|discriminate].
  now intros [= ->].
Qed.

(** C2. With a byte cap of [N] bytes, [N >= 0], and a duration that does
    not elapse during the [fuel] turns that the cap needs ([N <= 1000 *
    (fuel - 1)]), the send loop ends, the chunks it sent are of 1000
    bytes at most, their lengths add up to [N] exactly and no prefix of
    them exceeds [N]; the session then sends the sentinel alone. *)
Theorem byte_cap_exact (fuel : nat) (args : Args) (env : Env) (N : Z) :
  parse_num_bytes (args_num args) = Ok (Some N) ->
  0 <= N ->
  units (args_format args) <> None ->
  (forall k : nat, (k <= fuel)%nat ->
     (elapsed_at (delay env) k < inject_Z (args_time args))%Q) ->
  N <= BUFFER_SIZE * (Z.of_nat fuel - 1) ->
  exists (l : Locals) (w : World),
    send_phase fuel args env = Some (Returned, l, w) /\
    total_sent l = N /\
    total_len (wire w) = N /\
    Forall (fun c => 0 < len c <= BUFFER_SIZE) (wire w) /\
    (forall n : nat, total_len (firstn n (wire w)) <= N) /\
    (forall results_list,
       wire (snd (fst (client_connection fuel args env results_list))) =
       wire w ++ [BYE]).
Proof.
  intros Hp HN Hf Hclock Hfuel.
  destruct (units (args_format args)) as [u|] eqn:Hu; [clear Hf|congruence].
  destruct (session_start_capped args env N Hp HN)
    as (He & l0 & w0 & Hs & Hcap & Htick & Ht & Hr).
  assert (Hh : (ticks (clock w0) - 1 + fuel <= fuel)%nat) by (rewrite Ht; lia).
  destruct (capped_run args env N u fuel He Hu Hclock fuel l0 w0 N
              Hcap Htick Hh Hr Hfuel) as (l & w & Hrun & Hcap' & Hr').
  assert (Hphase : send_phase fuel args env = Some (Returned, l, w)).
  { unfold send_phase. now rewrite Hs, Hrun. }
  exists l, w. split; [exact Hphase|].
  destruct Hcap' as (r & Hr0 & _ & Hsum & Hwire & Hall & _).
  rewrite Hr' in Hr0. injection Hr0 as <-.
  assert (Htot : total_sent l = N) by lia.
  split; [exact Htot|]. split; [lia|]. split; [exact Hall|].
  split.
  - intros n. pose proof (total_len_firstn n (wire w)). lia.
  - intros rs. rewrite (client_connection_returned _ _ _ _ _ rs Hphase).
    apply session_finish_wire.
Qed.

Lemma byte_cap_exact_witness :
  exists (l : Locals) (w : World),
    send_phase 4 (client_args 25 0 "2500 B")
      (steady (1 # 1000) (Received ACK_BYE)) = Some (Returned, l, w) /\
    total_sent l = 2500 /\
    total_len (wire w) = 2500 /\
    Forall (fun c => 0 < len c <= BUFFER_SIZE) (wire w) /\
    (forall n : nat, total_len (firstn n (wire w)) <= 2500) /\
    (forall results_list,
       wire (snd (fst (client_connection 4 (client_args 25 0 "2500 B")
                         (steady (1 # 1000) (Received ACK_BYE))
                         results_list))) =
       wire w ++ [BYE]).
Proof.
  apply (byte_cap_exact 4 (client_args 25 0 "2500 B")
           (steady (1 # 1000) (Received ACK_BYE)) 2500).
  - reflexivity.
  - lia.
  - discriminate.
  - intros k Hk.
    do 5 (destruct k as [|k]; [vm_compute; reflexivity|]). lia.
  - vm_compute. discriminate.
Defined.

(** ** Client side: a cap that is not positive *)

Lemma parse_num_bytes_not_empty (s : string) (N : Z) :
  parse_num_bytes s = Ok (Some N) -> is_empty s = false.
Proof.
  unfold parse_num_bytes. destruct (is_empty s); [discriminate|reflexivity].
Qed.

Lemma session_start_cap (args : Args) (env : Env) (N : Z) :
  parse_num_bytes (args_num args) = Ok (Some N) ->
  exists l w,
    session_start args env = (Ok l, w) /\
    remaining_bytes l = Some N /\ wire w = [] /\ total_sent l = 0.
Proof.
  intros Hp. unfold session_start, read_clock, time_time.
  rewrite (parse_num_bytes_not_empty _ _ Hp), Hp.
  eexists _, _. repeat split.
Qed.

Lemma loop_body_cap_reached (args : Args) (env : Env) (l : Locals) (w : World)
    (r : Z) :
  is_empty (args_num args) = false ->
  remaining_bytes l = Some r -> r <= 0 ->
  match loop_body args env l w with
  | Continue _ _ => False
  | Break l' w' | Throw _ l' w' =>
      wire w' = wire w /\ total_sent l' = total_sent l
  end.
Proof.
  intros He Hr Hle. unfold loop_body, read_clock, time_time.
  match goal with
  | |- context [report_interval args ?l0 ?w0] =>
      pose proof (report_interval_cases args l0 w0) as H;
      destruct (report_interval args l0 w0) as [[l1 w1]|e]
  end; [|split; reflexivity].
  assert (H1 : wire w1 = wire w /\ total_sent l1 = total_sent l /\
               remaining_bytes l1 = Some r).
  { destruct H as [(-> & -> & _) | (_ & _ & (row & _ & ->) & ->)];
      repeat split; assumption. }
  destruct H1 as (Hw & Ht & Hr1).
  destruct (Qle_bool _ _); [now split|].
  unfold send_chunk. rewrite He, Hr1.
  destruct (r <=? 0) eqn:E; [now split|].
  apply Z.leb_gt in E. lia.
Qed.

(** C9, the example of the claim: ["-5 B"] is -5 bytes, not -5000. *)
Lemma parse_num_bytes_minus_5_B :
  parse_num_bytes "-5 B" = Ok (Some (-5)) /\
  parse_num_bytes "-5 B" <> Ok (Some (-5000)).
Proof. split; [reflexivity | discriminate]. Qed.

(** C9, amended. [parse_num_bytes] checks no sign: an integer word [num]
    of value [n], negative or not, with a unit of factor [u] gives
    [n * u]. When the cap of a session is such a string with [n < 0], the
    send loop stops in its first turn, by [break] or by an exception of
    the reporter, and no payload byte was sent. *)
Theorem parse_num_bytes_negative (num unit : string) (n u : Z)
    (fuel : nat) (args : Args) (env : Env) :
  int num = Some n -> units unit = Some u ->
  parse_num_bytes (num ++ " " ++ unit) = Ok (Some (n * u)) /\
  (args_num args = (num ++ " " ++ unit)%string -> n < 0 ->
   exists st l w,
     send_phase (S fuel) args env = Some (st, l, w) /\
     st <> Running /\ wire w = [] /\ total_sent l = 0).
Proof.
  intros Hn Hu.
  pose proof (parse_num_bytes_words num unit n u Hn Hu) as Hp.
  split; [exact Hp|].
  intros Hnum Hneg. rewrite <- Hnum in Hp.
  destruct (session_start_cap args env _ Hp) as (l0 & w0 & Hs & Hr & Hw & Ht).
  pose proof (units_positive _ _ Hu) as Hpos.
  assert (Hle : n * u <= 0) by nia.
  pose proof (loop_body_cap_reached args env l0 w0 (n * u)
                (parse_num_bytes_not_empty _ _ Hp) Hr Hle) as Hb.
  unfold send_phase. rewrite Hs. cbn [send_loop].
  destruct (loop_body args env l0 w0) as [l1 w1|l1 w1|e l1 w1];
    [contradiction| |]; destruct Hb as [Hw1 Ht1];
    eexists _, _, _; (split; [reflexivity|]);
    (split; [discriminate|]); split; congruence.
Qed.

Lemma parse_num_bytes_negative_witness :
  parse_num_bytes "-5 KB" = Ok (Some (-5 * 1000)) /\
  exists st l w,
    send_phase 1 (client_args 25 0 "-5 KB") (steady (1 # 1000) TimedOut)
      = Some (st, l, w) /\
    st <> Running /\ wire w = [] /\ total_sent l = 0.
Proof.
  destruct (parse_num_bytes_negative "-5" "KB" (-5) 1000 0
              (client_args 25 0 "-5 KB") (steady (1 # 1000) TimedOut)
              eq_refl eq_refl) as [Hp Hrun].
  split; [exact Hp|]. apply Hrun; [reflexivity | lia].
Defined.

(** ** Client side: the end of a session *)

Lemma bytes_eqb_eq (x y : bytes) : bytes_eqb x y = true <-> x = y.
Proof.
  revert y. induction x as [|c x IH]; intros [|d y]; simpl;
    try (split; [discriminate | congruence]); [tauto|].
  rewrite andb_true_iff, IH. split.
  - intros [H ->]. now rewrite (Byte.byte_dec_bl _ _ H).
  - intros [= -> ->]. split; [now apply Byte.byte_dec_lb | reflexivity].
Qed.

(** When the loop ends by [break], [elapsed_time] is the last reading of
    the clock counted from [start_time], and the socket is as it was. *)
Lemma loop_body_clock (args : Args) (env : Env) (l : Locals) (w : World) :
  match loop_body args env l w with
  | Continue l' w' =>
      start_time l' = start_time l /\ sock_closed w' = sock_closed w
  | Break l' w' =>
      start_time l' = start_time l /\ sock_closed w' = sock_closed w /\
      elapsed_time l' = (now (clock w') - start_time l')%Q
  | Throw _ _ _ => True
  end.
Proof.
  unfold loop_body, read_clock, time_time.
  match goal with
  | |- context [report_interval args ?l0 ?w0] =>
      pose proof (report_interval_cases args l0 w0) as H;
      destruct (report_interval args l0 w0) as [[l1 w1]|e]
  end; [|exact I].
  match type of H with
  | (l1 = ?l0 /\ w1 = ?w0 /\ _) \/ _ =>
      assert (H1 : start_time l1 = start_time l /\
                   sock_closed w1 = sock_closed w /\
                   elapsed_time l1 = (now (clock w1) - start_time l1)%Q)
  end.
  { destruct H as [(-> & -> & _) | (_ & _ & (row & _ & ->) & ->)];
      repeat split. }
  destruct H1 as (Hs & Hc & He).
  destruct (Qle_bool _ _); [auto|].
  destruct (send_chunk args l1 w1) as [[[l2 w2]|]|e] eqn:Hsend; auto.
  apply send_chunk_frame in Hsend as (_ & _ & Hc2 & Hs2 & _).
  split; congruence.
Qed.

Lemma send_loop_returned (args : Args) (env : Env) :
  forall (fuel : nat) (l l' : Locals) (w w' : World),
  send_loop fuel args env l w = (Returned, l', w') ->
  start_time l' = start_time l /\ sock_closed w' = sock_closed w /\
  elapsed_time l' = (now (clock w') - start_time l')%Q.
Proof.
  induction fuel as [|fuel IH]; intros l l' w w'; cbn [send_loop];
    [discriminate|].
  pose proof (loop_body_clock args env l w) as H.
  destruct (loop_body args env l w) as [l1 w1|l1 w1|e l1 w1].
  - intros Hrun. apply IH in Hrun as (Hs & Hc & He).
    destruct H as [Hs1 Hc1]. repeat split; congruence.
  - intros [= <- <-]. exact H.
  - discriminate.
Qed.

Lemma send_phase_returned (fuel : nat) (args : Args) (env : Env)
    (l : Locals) (w : World) :
  send_phase fuel args env = Some (Returned, l, w) ->
  elapsed_time l = (now (clock w) - start_time l)%Q.
Proof.
  unfold send_phase.
  destruct (session_start args env) as [[l0|e] w0]; [|discriminate].
  intros [= H]. now apply send_loop_returned in H.
Qed.

Lemma client_connection_appends (fuel : nat) (args : Args) (env : Env)
    (rs rs' : list SessionResult) (st : Status) (w' : World) :
  client_connection fuel args env rs = (st, w', rs') ->
  rs' = rs \/
  exists l w, send_phase fuel args env = Some (Returned, l, w) /\
              session_finish args env l w rs = (st, w', rs').
Proof.
  unfold client_connection, send_phase.
  destruct (session_start args env) as [[l0|e] w0]; [|intros [= _ _ <-]; auto].
  destruct (send_loop fuel args env l0 w0) as [[[| |e] l] w].
  - intros [= _ _ <-]; auto.
  - intros H. right. eauto.
  - intros [= _ _ <-]; auto.
Qed.

(** The clock after the floor of [min_duration] and the sentinel. *)
Lemma floor_reached (env : Env) (l : Locals) (w : World) (k : nat) :
  (0 <= delay env k)%Q ->
  elapsed_time l = (now (clock w) - start_time l)%Q ->
  let remaining_duration := (min_duration - elapsed_time l)%Q in
  let c := if negb (Qle_bool remaining_duration 0)
           then time_sleep remaining_duration (clock w) else clock w in
  (min_duration <= now c + delay env k - start_time l)%Q /\
  (elapsed_time l <= now c + delay env k - start_time l)%Q.
Proof.
  intros Hd He. cbv zeta. rewrite He.
  destruct (Qle_bool _ _) eqn:Hq; cbn [negb].
  - apply Qle_bool_iff in Hq. split; lra.
  - assert (~ (min_duration - (now (clock w) - start_time l) <= 0)%Q) as Hn.
    { intros H. apply Qle_bool_iff in H. congruence. }
    unfold time_sleep. cbn [now]. split; lra.
Qed.

(** What the end of a session does, by the reply of the server. *)
Lemma session_finish_cases (args : Args) (env : Env) (l : Locals) (w : World)
    (rs : list SessionResult) :
  (forall k, 0 <= delay env k)%Q ->
  elapsed_time l = (now (clock w) - start_time l)%Q ->
  exists st w' rs',
    session_finish args env l w rs = (st, w', rs') /\
    wire w' = wire w ++ [BYE] /\
    match reply env with
    | TimedOut =>
        st = Returned /\ rs' = rs /\ sock_closed w' = true /\
        last (stdout w') (Text "") =
          Text "Error: Timeout while waiting for acknowledgement from server."
    | Received ack =>
        if bytes_eqb ack ACK_BYE then
          match units (args_format args) with
          | None => st = Uncaught InvalidUnit /\ rs' = rs
          | Some u =>
              st = Returned /\ sock_closed w' = true /\
              exists r, rs' = rs ++ [r] /\
                (min_duration <= result_elapsed_time r)%Q /\
                (elapsed_time l <= result_elapsed_time r)%Q /\
                calculate_rate (inject_Z (total_sent l))
                  (result_elapsed_time r) = Ok (result_rate r) /\
                format_size (inject_Z (total_sent l)) (args_format args)
                  = Ok (result_sent_data r) /\
                result_ip r = args_serverip args /\
                result_port r = args_port args
          end
        else
          st = Returned /\ rs' = rs /\ sock_closed w' = true /\
          last (stdout w') (Text "") =
            Text "Error: Invalid acknowledgement message received from server."
    end.
Proof.
  intros Hd He.
  pose proof (floor_reached env l w (ticks (clock w)) (Hd _) He) as Hfloor.
  cbv zeta in Hfloor. revert Hfloor.
  unfold session_finish, read_clock, time_time, format_size, calculate_rate.
  set (slept := negb (Qle_bool (min_duration - elapsed_time l) 0)).
  destruct (reply env) as [|ack].
  { intros _. eexists _, _, _. split; [reflexivity|].
    destruct slept; cbn; rewrite last_last; repeat split. }
  destruct (bytes_eqb ack ACK_BYE).
  2: { intros _. eexists _, _, _. split; [reflexivity|].
       destruct slept, (0 <? args_interval args); cbn; rewrite last_last;
         repeat split. }
  destruct (units (args_format args)) as [u|].
  2: { intros _.
       destruct slept, (0 <? args_interval args); cbn;
         (eexists _, _, _; split; [reflexivity|]); repeat split. }
  intros [Hmin Hle].
  destruct slept, (0 <? args_interval args);
    unfold sendall, print, set_clock, close, time_sleep in *;
    cbn [clock now ticks wire stdout sock_closed] in *;
    match goal with
    | |- context [Qeq_bool ?e 0] =>
        destruct (Qeq_bool e 0) eqn:Hz;
        [apply Qeq_bool_eq in Hz; unfold min_duration in Hmin, Hz; lra|]
    end;
    (eexists _, _, _; split; [reflexivity|]);
    cbn [wire sock_closed];
    (split; [reflexivity|]); (split; [reflexivity|]);
    (split; [reflexivity|]);
    eexists; (split; [reflexivity|]);
    cbn [result_elapsed_time result_rate result_sent_data result_ip
         result_port];
    rewrite ?Hz; repeat split; assumption.
Qed.

Lemma app_one_neq {A : Type} (x : list A) (a : A) : x ++ [a] <> x.
Proof.
  intros H. apply (f_equal (@List.length A)) in H.
  rewrite length_app in H. simpl in H. lia.
Qed.

(** C10. When the clock of the process does not run backwards, every
    result that a session appends has an elapsed time of 0.1 second at
    least: the session slept up to that floor before the sentinel, and
    the elapsed time of the result is read again after the
    acknowledgement, so it is not less than the one at the end of the
    send loop; it is not zero, and [calculate_rate] divides by it without
    an exception. A session appends nothing or this one result. *)
Theorem result_elapsed_floor (fuel : nat) (args : Args) (env : Env)
    (rs rs' : list SessionResult) (st : Status) (w' : World) :
  (forall k, 0 <= delay env k)%Q ->
  client_connection fuel args env rs = (st, w', rs') ->
  rs' = rs \/
  exists (r : SessionResult) (l : Locals) (w : World),
    rs' = rs ++ [r] /\
    send_phase fuel args env = Some (Returned, l, w) /\
    (1 # 10 <= result_elapsed_time r)%Q /\
    (elapsed_time l <= result_elapsed_time r)%Q /\
    ~ (result_elapsed_time r == 0)%Q /\
    calculate_rate (inject_Z (total_sent l)) (result_elapsed_time r)
      = Ok (result_rate r).
Proof.
  intros Hd Hrun.
  destruct (client_connection_appends _ _ _ _ _ _ _ Hrun)
    as [->|(l & w & Hphase & Hfin)]; [now left|].
  destruct (session_finish_cases args env l w rs Hd
              (send_phase_returned _ _ _ _ _ Hphase))
    as (st0 & w0 & rs0 & Hfin' & _ & Hcase).
  rewrite Hfin in Hfin'. injection Hfin' as <- <- <-.
  destruct (reply env) as [|ack]; [left; tauto|].
  destruct (bytes_eqb ack ACK_BYE); [|left; tauto].
  destruct (units (args_format args)); [|left; tauto].
  destruct Hcase as (_ & _ & r & -> & Hmin & Hle & Hrate & _).
  right. exists r, l, w. unfold min_duration in Hmin.
  repeat split; try assumption. intros Hz. rewrite Hz in Hmin.
  revert Hmin. unfold Qle. simpl. lia.
Qed.

Lemma result_elapsed_floor_witness :
  match client_connection 4 (client_args 25 0 "2500 B")
          (steady (1 # 1000) (Received ACK_BYE)) [] with
  | (st, w', rs') =>
      exists r : SessionResult,
        rs' = [r] /\ (1 # 10 <= result_elapsed_time r)%Q
  end.
Proof.
  destruct (client_connection 4 (client_args 25 0 "2500 B")
              (steady (1 # 1000) (Received ACK_BYE)) [])
    as [[st w'] rs'] eqn:E.
  assert (Hd : forall k : nat,
            (0 <= delay (steady (1 # 1000) (Received ACK_BYE)) k)%Q)
    by (intros k; unfold Qle; simpl; lia).
  destruct (result_elapsed_floor _ _ _ _ _ _ _ Hd E)
    as [H | (r & l & w & H & _ & Hmin & _)].
  - vm_compute in E. rewrite H in E. discriminate.
  - exists r. split; assumption.
Defined.

(** C3. A session that reached the sentinel, with a printable unit and a
    clock that does not run backwards: it returns with its socket closed
    whatever the reply; it appends one result exactly when the reply is
    the 8 bytes ACK: BYE; on the time-out of 5 seconds and on any other
    reply it appends nothing and its last line is the error message. *)
Theorem acknowledgement_handling (fuel : nat) (args : Args) (env : Env)
    (rs : list SessionResult) (l : Locals) (w : World) :
  (forall k, 0 <= delay env k)%Q ->
  units (args_format args) <> None ->
  send_phase fuel args env = Some (Returned, l, w) ->
  exists (w' : World) (rs' : list SessionResult),
    client_connection fuel args env rs = (Returned, w', rs') /\
    sock_closed w' = true /\
    wire w' = wire w ++ [BYE] /\
    len ACK_BYE = 8 /\
    ((exists r, rs' = rs ++ [r]) <-> reply env = Received ACK_BYE) /\
    (reply env <> Received ACK_BYE -> rs' = rs) /\
    (reply env = TimedOut ->
     last (stdout w') (Text "") =
       Text "Error: Timeout while waiting for acknowledgement from server.") /\
    (forall ack, reply env = Received ack -> ack <> ACK_BYE ->
     last (stdout w') (Text "") =
       Text "Error: Invalid acknowledgement message received from server.").
Proof.
  intros Hd Hu Hphase.
  destruct (session_finish_cases args env l w rs Hd
              (send_phase_returned _ _ _ _ _ Hphase))
    as (st & w' & rs' & Hfin & Hwire & Hcase).
  rewrite <- (client_connection_returned _ _ _ _ _ rs Hphase) in Hfin.
  assert (Hnone : forall x : list SessionResult,
            (exists r, x = x ++ [r]) -> False).
  { intros x [r Hr]. symmetry in Hr. now apply app_one_neq in Hr. }
  destruct (reply env) as [|ack].
  - destruct Hcase as (-> & -> & Hc & Hlast).
    exists w', rs. repeat split; intros; try assumption; try discriminate.
    now elim (Hnone rs).
  - destruct (bytes_eqb ack ACK_BYE) eqn:Hack.
    + apply bytes_eqb_eq in Hack. subst ack.
      destruct (units (args_format args)); [|congruence].
      destruct Hcase as (-> & Hc & r & -> & _).
      exists w', (rs ++ [r]).
      repeat split; intros; try assumption; try congruence; eauto.
    + assert (Hne : ack <> ACK_BYE).
      { intros ->. now rewrite (proj2 (bytes_eqb_eq _ _) eq_refl) in Hack. }
      destruct Hcase as (-> & -> & Hc & Hlast).
      exists w', rs.
      repeat split; intros; try assumption; try discriminate;
        try congruence.
      now elim (Hnone rs).
Qed.

Lemma acknowledgement_handling_witness :
  match send_phase 4 (client_args 25 0 "2500 B")
          (steady (1 # 1000) (Received (b "ACK: BY"))) with
  | Some (Returned, l, w) =>
      exists w', 
        client_connection 4 (client_args 25 0 "2500 B")
          (steady (1 # 1000) (Received (b "ACK: BY"))) [] = (Returned, w', [])
        /\ sock_closed w' = true
  | _ => False
  end.
Proof.
  destruct (send_phase 4 (client_args 25 0 "2500 B")
              (steady (1 # 1000) (Received (b "ACK: BY"))))
    as [[[[| |e] l] w]|] eqn:E; try (vm_compute in E; discriminate).
  assert (Hd : forall k : nat,
            (0 <= delay (steady (1 # 1000) (Received (b "ACK: BY"))) k)%Q)
    by (intros k; unfold Qle; simpl; lia).
  assert (Hu : units (args_format (client_args 25 0 "2500 B")) <> None)
    by discriminate.
  assert (Hr : reply (steady (1 # 1000) (Received (b "ACK: BY")))
               <> Received ACK_BYE) by discriminate.
  destruct (acknowledgement_handling 4 _ _ [] l w Hd Hu E)
    as (w' & rs' & Hrun & Hc & _ & _ & _ & Hno & _).
  exists w'. rewrite Hrun, (Hno Hr). now split.
Defined.

(** ** The orchestrator *)

Section Termination.

Variables (args : Args) (env : Env).

(** A turn that goes on has read the clock once more, below the
    duration. *)
Lemma loop_body_ticked (k : nat) (l : Locals) (w : World) :
  ticked env k l w ->
  match loop_body args env l w with
  | Continue l' w' =>
      ticked env (S k) l' w' /\
      ~ (inject_Z (args_time args) <= elapsed_at (delay env) (S k))%Q
  | _ => True
  end.
Proof.
  intros (Hk & Hnow & Hstart).
  unfold loop_body, read_clock, time_time. rewrite Hk, Hnow, Hstart.
  change (reading (delay env) k + delay env (S k))%Q
    with (reading (delay env) (S k)).
  change (reading (delay env) (S k) - reading (delay env) 0)%Q
    with (elapsed_at (delay env) (S k)).
  match goal with
  | |- context [report_interval args ?l0 ?w0] =>
      pose proof (report_interval_cases args l0 w0) as H;
      destruct (report_interval args l0 w0) as [[l1 w1]|e]
  end; [|exact I].
  match type of H with
  | (l1 = ?l0 /\ w1 = ?w0 /\ _) \/ _ =>
      assert (H1 : start_time l1 = start_time l0 /\ clock w1 = clock w0 /\
                   elapsed_time l1 = elapsed_time l0)
  end.
  { destruct H as [(-> & -> & _) | (_ & _ & (row & _ & ->) & ->)];
      repeat split. }
  cbn [start_time clock set_clock elapsed_time] in H1.
  destruct H1 as (Hs & Hc & He). rewrite He.
  destruct (Qle_bool _ _) eqn:Hq; [exact I|].
  destruct (send_chunk args l1 w1) as [[[l2 w2]|]|e] eqn:Hsend; try exact I.
  apply send_chunk_frame in Hsend as (_ & Hc2 & _ & Hs2 & _).
  split.
  - unfold ticked. rewrite Hc2, Hc, Hs2, Hs. repeat split.
  - intros Hle. apply Qle_bool_iff in Hle. congruence.
Qed.

(** Once the clock shows the duration the loop has ended. *)
Lemma send_loop_stops : forall (fuel k : nat) (l : Locals) (w : World),
  ticked env k l w ->
  (exists k', (k < k' <= k + fuel)%nat /\
     (inject_Z (args_time args) <= elapsed_at (delay env) k')%Q) ->
  fst (fst (send_loop fuel args env l w)) <> Running.
Proof.
  induction fuel as [|fuel IH]; intros k l w Ht (k' & Hk' & Hle).
  - lia.
  - cbn [send_loop].
    pose proof (loop_body_ticked k l w Ht) as H.
    destruct (loop_body args env l w) as [l1 w1|l1 w1|e l1 w1];
      [|discriminate|discriminate].
    destruct H as [Ht1 Hlt].
    apply (IH (S k) l1 w1 Ht1). exists k'. split; [|exact Hle].
    assert (k' <> S k) by (intros ->; contradiction). lia.
Qed.

End Termination.

Lemma session_start_ticked (args : Args) (env : Env) (l : Locals) (w : World) :
  session_start args env = (Ok l, w) -> ticked env 0 l w.
Proof.
  unfold session_start, read_clock, time_time.
  destruct (is_empty (args_num args)).
  - intros [= <- <-]. repeat split.
  - destruct (parse_num_bytes (args_num args)); [|discriminate].
    intros [= <- <-]. repeat split.
Qed.

Lemma session_finish_status (args : Args) (env : Env) (l : Locals) (w : World)
    (rs : list SessionResult) :
  fst (fst (session_finish args env l w rs)) <> Running.
Proof.
  unfold session_finish, read_clock, time_time.
  destruct (negb _), (reply env) as [|ack];
    try destruct (0 <? args_interval args);
    try destruct (bytes_eqb ack ACK_BYE);
    try destruct (format_size _ _);
    try destruct (calculate_rate _ _); discriminate.
Qed.

(** A session whose clock shows the duration within [fuel] readings
    ends. *)
Lemma client_connection_ends (fuel : nat) (args : Args) (env : Env)
    (rs : list SessionResult) :
  (exists k, (1 <= k <= fuel)%nat /\
     (inject_Z (args_time args) <= elapsed_at (delay env) k)%Q) ->
  fst (fst (client_connection fuel args env rs)) <> Running.
Proof.
  intros (k & Hk & Hle). unfold client_connection.
  destruct (session_start args env) as [[l0|e] w0] eqn:Hs; [|discriminate].
  apply session_start_ticked in Hs.
  assert (Hstop : fst (fst (send_loop fuel args env l0 w0)) <> Running).
  { apply (send_loop_stops args env fuel 0 l0 w0 Hs).
    exists k. split; [lia | exact Hle]. }
  destruct (send_loop fuel args env l0 w0) as [[[| |e] l] w];
    [now elim Hstop | apply session_finish_status | discriminate].
Qed.

(** A session appends to the shared list what it would leave in an empty
    one: nothing, or one result, the latter exactly when it returns
    after the acknowledgement ACK: BYE. *)
Lemma client_connection_shared (fuel : nat) (args : Args) (env : Env)
    (rs : list SessionResult) :
  client_connection fuel args env rs =
    (session_status fuel args env,
     snd (fst (client_connection fuel args env [])),
     rs ++ session_entries fuel args env) /\
  (session_entries fuel args env = [] \/
   exists r, session_entries fuel args env = [r]) /\
  (reply env <> Received ACK_BYE -> session_entries fuel args env = []) /\
  (session_status fuel args env <> Returned ->
   session_entries fuel args env = []) /\
  (session_status fuel args env = Returned ->
   reply env = Received ACK_BYE ->
   exists r, session_entries fuel args env = [r]).
Proof.
  unfold session_entries, session_status, client_connection.
  destruct (session_start args env) as [[l0|e] w0];
    [|cbn; rewrite app_nil_r; repeat split; auto; congruence].
  destruct (send_loop fuel args env l0 w0) as [[[| |e] l] w];
    try (cbn; rewrite app_nil_r; repeat split; auto; congruence).
  unfold session_finish, read_clock, time_time.
  destruct (negb _), (reply env) as [|ack];
    try destruct (0 <? args_interval args);
    try destruct (bytes_eqb ack ACK_BYE) eqn:Hack;
    try destruct (format_size _ _);
    try destruct (calculate_rate _ _);
    try apply bytes_eqb_eq in Hack; subst;
    cbn [fst snd app]; rewrite ?app_nil_r;
    (split; [reflexivity|]);
    (split; [first [left; reflexivity | right; eexists; reflexivity]|]);
    repeat split; intros; eauto; try congruence; try discriminate.
  all: match goal with
       | H : Received _ = Received _ |- _ => injection H as ->
       end.
  all: now rewrite (proj2 (bytes_eqb_eq _ _) eq_refl) in Hack.
Qed.

Lemma join_all_entries (fuel : nat) (args : Args) (envs : nat -> Env) :
  forall (order : list nat) (rs : list SessionResult),
  (forall i, In i order -> session_status fuel args (envs i) <> Running) ->
  join_all fuel args envs order rs =
    Some (rs ++ flat_map (fun i => session_entries fuel args (envs i)) order).
Proof.
  induction order as [|i order IH]; intros rs Hend; cbn [join_all flat_map].
  - now rewrite app_nil_r.
  - rewrite (proj1 (client_connection_shared fuel args (envs i) rs)).
    pose proof (Hend i (or_introl eq_refl)) as Hi.
    rewrite app_assoc.
    destruct (session_status fuel args (envs i));
      [now elim Hi | |]; apply IH; intros j Hj; apply Hend; now right.
Qed.

Lemma headers_app (x y : list Line) : headers (x ++ y) = (headers x + headers y)%nat.
Proof.
  induction x as [|r x IH]; [reflexivity|].
  destruct r; simpl; rewrite ?IH; reflexivity.
Qed.

Lemma headers_final_rows (args : Args) (rs : list SessionResult) :
  headers (map (final_row args) rs) = 0%nat.
Proof. induction rs as [|r rs IH]; [reflexivity | exact IH]. Qed.

Lemma length_flat_map_le {A B : Type} (f : A -> list B) (l : list A) :
  (forall a, List.length (f a) <= 1)%nat ->
  (List.length (flat_map f l) <= List.length l)%nat.
Proof.
  intros H. induction l as [|a l IH]; simpl; [lia|].
  rewrite length_app. specialize (H a). lia.
Qed.

Lemma flat_map_singletons {A B : Type} (f : A -> list B) (g : A -> B)
    (l : list A) :
  (forall a, In a l -> f a = [g a]) -> flat_map f l = map g l.
Proof.
  induction l as [|a l IH]; intros H; simpl; [reflexivity|].
  rewrite (H a (or_introl eq_refl)), IH; [reflexivity|].
  intros a' Ha'. apply H. now right.
Qed.

(** C5. The orchestrator starts one session per index of
    [range(parallel)]. Whatever the order in which the sessions end,
    when each of them ends the parent prints one header, then one row per
    entry of the shared list in the order of insertion. Each session
    inserted at most one entry, a session whose reply is not ACK: BYE
    none, so there are [parallel] entries at most; when every session
    returns after ACK: BYE there are exactly [parallel] entries, one per
    session. *)
Theorem orchestrator_aggregation (fuel : nat) (args : Args)
    (envs : nat -> Env) (order : list nat) :
  Permutation order (processes args) ->
  (forall i, In i (processes args) ->
     exists k, (1 <= k <= fuel)%nat /\
       (inject_Z (args_time args) <= elapsed_at (delay (envs i)) k)%Q) ->
  List.length order = Z.to_nat (args_parallel args) /\
  NoDup order /\
  exists results : list SessionResult,
    create_parallel_connections fuel args envs order =
      Some (print_results args results, results) /\
    results = flat_map (fun i => session_entries fuel args (envs i)) order /\
    print_results args results =
      (if 1 <? args_parallel args then [Text newline] else []) ++ print_header args :: map (final_row args) results /\
    headers (print_results args results) = 1%nat /\
    (List.length results <= Z.to_nat (args_parallel args))%nat /\
    (forall i, session_entries fuel args (envs i) = [] \/
               exists r, session_entries fuel args (envs i) = [r]) /\
    (forall i, reply (envs i) <> Received ACK_BYE ->
               session_entries fuel args (envs i) = []) /\
    ((forall i, In i (processes args) ->
        session_status fuel args (envs i) = Returned /\
        reply (envs i) = Received ACK_BYE) ->
     List.length results = Z.to_nat (args_parallel args) /\
     exists entry : nat -> SessionResult,
       (forall i, In i (processes args) ->
          session_entries fuel args (envs i) = [entry i]) /\
       results = map entry order).
Proof.
  intros Hperm Hclock.
  assert (Hlen : List.length order = Z.to_nat (args_parallel args)).
  { rewrite (Permutation_length Hperm). unfold processes. apply length_seq. }
  split; [exact Hlen|].
  split.
  { apply (Permutation_NoDup (Permutation_sym Hperm)). apply seq_NoDup. }
  set (entries := fun i => session_entries fuel args (envs i)).
  assert (Hend : forall i, In i order ->
                   session_status fuel args (envs i) <> Running).
  { intros i Hi. apply client_connection_ends. apply Hclock.
    exact (Permutation_in i Hperm Hi). }
  exists (flat_map entries order).
  assert (Hone : forall i, entries i = [] \/ exists r, entries i = [r]).
  { intros i. apply (client_connection_shared fuel args (envs i) []). }
  split.
  { unfold create_parallel_connections.
    now rewrite (join_all_entries fuel args envs order [] Hend). }
  split; [reflexivity|]. split; [reflexivity|].
  split.
  { unfold print_results. rewrite headers_app.
    change (headers (print_header args :: ?x)) with (S (headers x)).
    fold (final_row args). rewrite headers_final_rows.
    destruct (1 <? args_parallel args); reflexivity. }
  split.
  { rewrite <- Hlen. apply length_flat_map_le. intros i.
    destruct (Hone i) as [-> | [r ->]]; simpl; lia. }
  split; [exact Hone|].
  split.
  { intros i. apply (client_connection_shared fuel args (envs i) []). }
  intros Hall.
  assert (Hin : forall i, In i order -> exists r, entries i = [r]).
  { intros i Hi.
    destruct (Hall i (Permutation_in i Hperm Hi)) as [Hst Hrep].
    exact (proj2 (proj2 (proj2 (proj2
             (client_connection_shared fuel args (envs i) [])))) Hst Hrep). }
  set (entry := fun i => match entries i with
                         | r :: _ => r
                         | [] => {| result_ip := ""; result_port := 0;
                                    result_elapsed_time := 0;
                                    result_sent_data := 0;
                                    result_rate := 0 |}
                         end).
  assert (Hentry : forall i, In i order -> entries i = [entry i]).
  { intros i Hi. unfold entry. destruct (Hin i Hi) as [r ->]. reflexivity. }
  assert (Hmap : flat_map entries order = map entry order)
    by now apply flat_map_singletons.
  split.
  - now rewrite Hmap, length_map.
  - exists entry. split; [|exact Hmap].
    intros i Hi. apply Hentry.
    exact (Permutation_in i (Permutation_sym Hperm) Hi).
Qed.

Lemma orchestrator_aggregation_witness :
  exists results : list SessionResult,
    create_parallel_connections 3 (with_parallel 5 (client_args 1 0 ""))
      (fun _ => steady (1 # 2) (Received ACK_BYE)) (rev (seq 0 5)) =
      Some (print_results (with_parallel 5 (client_args 1 0 "")) results,
            results) /\
    List.length results = 5%nat.
Proof.
  destruct (orchestrator_aggregation 3 (with_parallel 5 (client_args 1 0 ""))
              (fun _ => steady (1 # 2) (Received ACK_BYE)) (rev (seq 0 5)))
    as (_ & _ & results & Hrun & _ & _ & _ & _ & _ & _ & Hall).
  - apply Permutation_sym, Permutation_rev.
  - intros i _. exists 2%nat. split; [lia | vm_compute; discriminate].
  - exists results. split; [exact Hrun|].
    apply Hall. intros i _. split; [vm_compute; reflexivity | reflexivity].
Defined.

(** * Further properties *)

(** ** White space in [parse_num_bytes] *)

Lemma lstrip_spaces (a s : string) :
  all_space a = true -> lstrip (a ++ s) = lstrip s.
Proof.
  induction a as [|ch a IH]; simpl; [reflexivity|].
  intros H. apply andb_prop in H as [Hc Ha]. rewrite Hc. now apply IH.
Qed.

Lemma rstrip_all_space (c : string) : all_space c = true -> rstrip c = ""%string.
Proof.
  induction c as [|ch c IH]; simpl; [reflexivity|].
  intros H. apply andb_prop in H as [Hc Ha]. now rewrite (IH Ha), Hc.
Qed.

Lemma rstrip_spaces (x c : string) :
  all_space c = true -> rstrip (x ++ c) = rstrip x.
Proof.
  intros Hc. induction x as [|ch x IH]; simpl.
  - now apply rstrip_all_space.
  - now rewrite IH.
Qed.

Lemma split_from_gap (g : string) : forall tok s,
  all_space g = true -> is_empty g = false -> is_empty tok = false ->
  split_from tok (g ++ s) = tok :: split_from "" s.
Proof.
  destruct g as [|ch g]; [discriminate|].
  intros tok s H _ Htok. simpl in H. apply andb_prop in H as [Hc Hg].
  cbn [append split_from]. rewrite Hc, Htok. f_equal.
  clear Hc. induction g as [|ch' g IH]; [reflexivity|].
  simpl in Hg. apply andb_prop in Hg as [Hc' Hg].
  cbn [append split_from]. rewrite Hc'. cbn [is_empty]. now apply IH.
Qed.

Lemma split_all_space (s : string) : all_space s = true -> split s = [].
Proof.
  unfold split. induction s as [|ch s IH]; [reflexivity|].
  simpl. intros H. apply andb_prop in H as [Hc Hs]. rewrite Hc. now apply IH.
Qed.

(** X4. White space around the two words and the width of the gap
    between them do not matter to [parse_num_bytes]; but a string that is
    not empty and holds white space only is not taken as absent: it fails
    with [MalformedInput]. *)
Theorem parse_num_bytes_white_space (a g c num unit : string) :
  all_space a = true -> all_space g = true -> is_empty g = false ->
  all_space c = true -> is_word num = true -> is_word unit = true ->
  parse_num_bytes (a ++ num ++ g ++ unit ++ c) =
    parse_num_bytes (num ++ " " ++ unit) /\
  (is_empty a = false -> parse_num_bytes a = Raise MalformedInput).
Proof.
  intros Ha Hg Hge Hc Wn Wu. split.
  - assert (Hsplit : split (strip (a ++ num ++ g ++ unit ++ c)) = [num; unit]).
    { unfold strip. rewrite (lstrip_spaces a _ Ha).
      rewrite (lstrip_word_first num _ Wn).
      replace (num ++ g ++ unit ++ c)%string
        with (((num ++ g) ++ unit) ++ c)%string
        by now rewrite !append_assoc.
      rewrite (rstrip_spaces _ c Hc), (rstrip_before_word _ _ Wu).
      rewrite !append_assoc. unfold split.
      pose proof Wn as Wn'. apply andb_prop in Wn' as [Hne Hns].
      pose proof Wu as Wu'. apply andb_prop in Wu' as [Hue Hus].
      apply negb_true_iff in Hne, Hue.
      rewrite split_from_no_space by assumption. cbn [append].
      rewrite (split_from_gap g num unit Hg Hge Hne).
      replace unit with (unit ++ "")%string at 1 by apply append_empty_r.
      rewrite split_from_no_space by assumption. simpl. now rewrite Hue. }
    unfold parse_num_bytes at 1. rewrite Hsplit.
    unfold parse_num_bytes. rewrite (split_two_words _ _ Wn Wu).
    assert (He : forall x y, is_word x = true -> is_empty (x ++ y) = false).
    { intros [|ch x] y H; [discriminate | reflexivity]. }
    rewrite (He num _ Wn).
    replace (is_empty (a ++ num ++ g ++ unit ++ c)) with false; [reflexivity|].
    symmetry. apply is_empty_append_r. now apply He.
  - intros Hne. unfold parse_num_bytes. rewrite Hne.
    unfold strip.
    replace (lstrip a) with (lstrip (a ++ "")) by now rewrite append_empty_r.
    rewrite (lstrip_spaces a "" Ha). reflexivity.
Qed.

Lemma parse_num_bytes_white_space_witness :
  parse_num_bytes "  3   KB " = parse_num_bytes "3 KB" /\
  parse_num_bytes "  " = Raise MalformedInput.
Proof.
  destruct (parse_num_bytes_white_space "  " "   " " "
              "3" "KB" eq_refl eq_refl eq_refl eq_refl eq_refl eq_refl)
    as [H1 H2].
  split; [exact H1 | exact (H2 eq_refl)].
Defined.

(** ** Server side *)

Lemma startswith_length (p l : bytes) :
  startswith p l = true -> (List.length p <= List.length l)%nat.
Proof.
  revert l. induction p as [|x p IH]; intros [|y l]; simpl;
    try discriminate; try lia.
  intros H. apply andb_prop in H as [_ H]. apply IH in H. lia.
Qed.

Lemma contains_length (p l : bytes) :
  contains p l = true -> len p <= len l.
Proof.
  unfold len. induction l as [|y l IH]; simpl.
  - rewrite orb_false_r. intros H. apply startswith_length in H.
    simpl in H. lia.
  - intros H. apply orb_prop in H as [H|H].
    + apply startswith_length in H. simpl in H. lia.
    + apply IH in H. lia.
Qed.

Lemma contains_sentinel_last (z : bytes) : contains BYE (z ++ BYE) = true.
Proof.
  induction z as [|x z IH]; [reflexivity|].
  cbn [app contains]. rewrite IH. apply orb_true_r.
Qed.

Lemma zeros_no_sentinel (c : bytes) :
  Forall (eq "0"%byte) c -> contains BYE c = false.
Proof.
  induction 1 as [|x c <- _ IH]; [reflexivity|].
  cbn [contains]. rewrite IH. reflexivity.
Qed.

Lemma receive_all_sentinel (pre : list bytes) (s : bytes) (rest : list bytes) :
  Forall (fun c => c <> [] /\ contains BYE c = false) pre ->
  contains BYE s = true ->
  receive_all (accepted (pre ++ s :: rest)) =
    (total_len pre + (len s - 3),
     {| incoming := rest; outgoing := [ACK_BYE]; closed := true |}).
Proof.
  intros Hpre Hs. unfold receive_all, accepted. cbn [incoming outgoing].
  destruct pre as [|d pre]; simpl app; cbv iota beta.
  - rewrite receive_loop_sentinel by assumption. reflexivity.
  - rewrite (receive_loop_chunks pre d s rest [] 0 Hpre Hs). reflexivity.
Qed.

(** X5. The sentinel is looked for in each chunk alone. Bytes that hold
    BYE across the cut of two chunks are plain data: both chunks are
    credited in full and no acknowledgement is sent, whereas the same
    bytes received as one chunk end the session, with 3 bytes less
    credited and the acknowledgement sent. *)
Theorem sentinel_across_chunks (x y : bytes) :
  x <> [] -> y <> [] ->
  contains BYE x = false -> contains BYE y = false ->
  contains BYE (x ++ y) = true ->
  receive_all (accepted [x; y]) =
    (len x + len y,
     {| incoming := []; outgoing := []; closed := true |}) /\
  receive_all (accepted [x ++ y]) =
    (len x + len y - 3,
     {| incoming := []; outgoing := [ACK_BYE]; closed := true |}).
Proof.
  intros Hx Hy Cx Cy Cxy. split.
  - rewrite receive_all_no_sentinel by (repeat constructor; assumption).
    unfold total_len. cbn [fold_right]. f_equal. lia.
  - refine (eq_trans
              (receive_all_sentinel [] (x ++ y) [] (Forall_nil _) Cxy) _).
    unfold total_len, len. cbn [fold_right]. rewrite length_app.
    f_equal. lia.
Qed.

Lemma sentinel_across_chunks_witness :
  receive_all (accepted [b "00BY"; b "E"]) =
    (4 + 1, {| incoming := []; outgoing := []; closed := true |}) /\
  receive_all (accepted [b "00BYE"]) =
    (4 + 1 - 3,
     {| incoming := []; outgoing := [ACK_BYE]; closed := true |}).
Proof.
  apply (sentinel_across_chunks (b "00BY") (b "E"));
    first [discriminate | reflexivity].
Defined.

Lemma receive_loop_bounds (pending : list bytes) :
  forall (d : bytes) (out : list bytes) (total : Z),
  total <= fst (fst (receive_loop d pending out total))
        <= total + total_len (d :: pending) /\
  (snd (receive_loop d pending out total) = out \/
   snd (receive_loop d pending out total) = out ++ [ACK_BYE] /\
   exists c, In c (d :: pending) /\ contains BYE c = true).
Proof.
  assert (Hpos : forall l : list bytes, 0 <= total_len l).
  { unfold total_len, len. induction l; cbn [fold_right]; lia. }
  induction pending as [|d' pending IH]; intros d out total;
    rewrite receive_loop_eq; destruct d as [|x d].
  - cbn. split; [lia | now left].
  - destruct (contains BYE (x :: d)) eqn:C.
    + apply contains_length in C as Hl. change (len BYE) with 3 in *.
      unfold total_len. cbn [fst snd fold_right].
      split; [lia|]. right. split; [reflexivity|].
      exists (x :: d). split; [now left | exact C].
    + unfold total_len. cbn [fst snd fold_right]. split; [|now left].
      unfold len. lia.
  - cbn [fst snd].
    match goal with |- context [total_len ?l] => pose proof (Hpos l) end.
    split; [lia | now left].
  - destruct (contains BYE (x :: d)) eqn:C.
    + apply contains_length in C as Hl. change (len BYE) with 3 in *.
      pose proof (Hpos (d' :: pending)).
      unfold total_len in *. cbn [fst snd fold_right] in *.
      split; [lia|]. right. split; [reflexivity|].
      exists (x :: d). split; [now left | exact C].
    + specialize (IH d' out (total + len (x :: d))).
      destruct IH as [Hb Ho].
      unfold total_len in *. cbn [fold_right] in *.
      assert (0 <= len (x :: d)) by (unfold len; lia).
      split; [lia|].
      destruct Ho as [Ho | (Ho & c & Hc & Cc)]; [now left|].
      right. split; [exact Ho|]. exists c. split; [now right | exact Cc].
Qed.

(** X6. Whatever the client sends, the total credited is not negative
    and not more than the bytes received, the connection ends closed,
    and the server sent nothing or one ACK: BYE, the latter only if some
    chunk held BYE. *)
Theorem receive_all_bounds (chunks : list bytes) :
  0 <= fst (receive_all (accepted chunks)) <= total_len chunks /\
  closed (snd (receive_all (accepted chunks))) = true /\
  (outgoing (snd (receive_all (accepted chunks))) = [] \/
   outgoing (snd (receive_all (accepted chunks))) = [ACK_BYE] /\
   exists c, In c chunks /\ contains BYE c = true).
Proof.
  unfold receive_all, accepted. cbn [incoming outgoing].
  destruct chunks as [|d pending]; cbv iota beta.
  - cbn. repeat split; try lia. now left.
  - pose proof (receive_loop_bounds pending d [] 0) as [Hb Ho].
    destruct (receive_loop d pending [] 0) as [[t p] o].
    cbn [fst snd closed outgoing] in *. repeat split; try lia. exact Ho.
Qed.

Lemma total_len_concat (l : list bytes) : total_len l = len (List.concat l).
Proof.
  unfold total_len, len. induction l as [|c l IH]; [reflexivity|].
  cbn [fold_right List.concat]. rewrite length_app. lia.
Qed.

(** X7. A payload of [n] bytes '0' followed by BYE is credited [n] bytes
    and acknowledged however the stream is cut in chunks that are not
    empty, as long as the last chunk holds the whole sentinel. *)
Theorem payload_any_chunks (n : nat) (pre : list bytes) (last : bytes) :
  Forall (fun c => c <> []) pre ->
  List.concat pre ++ last = repeat "0"%byte n ++ BYE ->
  (3 <= List.length last)%nat ->
  receive_all (accepted (pre ++ [last])) =
    (Z.of_nat n,
     {| incoming := []; outgoing := [ACK_BYE]; closed := true |}).
Proof.
  intros Hne Hcat Hlast.
  assert (Hcut : exists l, repeat "0"%byte n = List.concat pre ++ l /\
                           last = l ++ BYE).
  { apply app_eq_app in Hcat as [l [[H1 H2] | [H1 H2]]].
    - assert (l = []) as ->.
      { apply (f_equal (@List.length byte)) in H2.
        rewrite length_app in H2. simpl in H2.
        destruct l; [reflexivity | simpl in H2; lia]. }
      exists []. rewrite app_nil_r in H1. simpl in H2.
      now rewrite app_nil_r.
    - exists l. now split. }
  destruct Hcut as (l & Hzeros & ->).
  assert (Hall : Forall (eq "0"%byte) (List.concat pre ++ l)).
  { rewrite <- Hzeros. apply Forall_forall. intros x Hx.
    now apply repeat_spec in Hx. }
  apply Forall_app in Hall as [Hpre Hl].
  assert (Hchunks : Forall (fun c => c <> [] /\ contains BYE c = false) pre).
  { apply Forall_concat in Hpre.
    apply Forall_forall. intros c Hc.
    split; [exact (proj1 (Forall_forall _ _) Hne c Hc)|].
    apply zeros_no_sentinel. exact (proj1 (Forall_forall _ _) Hpre c Hc). }
  rewrite (receive_all_sentinel pre (l ++ BYE) [] Hchunks
             (contains_sentinel_last l)).
  f_equal. rewrite total_len_concat. unfold len.
  apply (f_equal (@List.length byte)) in Hzeros.
  rewrite repeat_length, length_app in Hzeros.
  rewrite length_app. simpl. lia.
Qed.

Lemma payload_any_chunks_witness :
  receive_all (accepted ([b "00"; b "0"; b "000"] ++ [b "0BYE"])) =
    (7, {| incoming := []; outgoing := [ACK_BYE]; closed := true |}).
Proof.
  apply (payload_any_chunks 7 [b "00"; b "0"; b "000"] (b "0BYE")).
  - repeat constructor; discriminate.
  - reflexivity.
  - simpl. lia.
Defined.



(** ** Client side: what goes on the wire *)

Lemma send_chunk_data (args : Args) (l l' : Locals) (w w' : World) :
  send_chunk args l w = Ok (Some (l', w')) ->
  data_to_send l' = data_to_send l \/
  exists r, 0 < r /\ data_to_send l' = firstn (Z.to_nat r) (data_to_send l).
Proof.
  unfold send_chunk.
  destruct (is_empty (args_num args)); [intros [= <- _]; now left|].
  destruct (remaining_bytes l) as [r|]; [|discriminate].
  destruct (r <=? 0) eqn:E; [discriminate|].
  apply Z.leb_gt in E. intros [= <- _]. right. exists r. split; [exact E|].
  cbn [data_to_send]. unfold slice_to.
  destruct (0 <=? r) eqn:E'; [reflexivity | apply Z.leb_gt in E'; lia].
Qed.

Lemma payload_chunk_firstn (c : bytes) (r : Z) :
  payload_chunk c -> 0 < r -> payload_chunk (firstn (Z.to_nat r) c).
Proof.
  intros (Hne & Hlen & Hz) Hr. unfold payload_chunk, len in *.
  split; [|split].
  - destruct c as [|x c]; [congruence|].
    destruct (Z.to_nat r) eqn:E; [lia | discriminate].
  - rewrite length_firstn. lia.
  - rewrite <- (firstn_skipn (Z.to_nat r) c) in Hz.
    now apply Forall_app in Hz.
Qed.

Lemma loop_body_wired (args : Args) (env : Env) (l : Locals) (w : World) :
  wired l w ->
  wired (fst (after (loop_body args env l w)))
        (snd (after (loop_body args env l w))).
Proof.
  intros H. unfold loop_body, read_clock, time_time.
  match goal with
  | |- context [report_interval args ?l0 ?w0] =>
      assert (H0 : wired l0 w0) by exact H;
      pose proof (report_interval_cases args l0 w0) as Hc;
      destruct (report_interval args l0 w0) as [[l1 w1]|e]
  end; [|exact H0].
  assert (H1 : wired l1 w1).
  { destruct Hc as [(-> & -> & _) | (_ & _ & (row & _ & ->) & ->)];
      exact H0. }
  destruct (Qle_bool _ _); [exact H1|].
  destruct (send_chunk args l1 w1) as [[[l2 w2]|]|e] eqn:Hs;
    [|exact H1|exact H1].
  pose proof (send_chunk_data _ _ _ _ _ Hs) as Hd.
  apply send_chunk_frame in Hs as (_ & _ & _ & _ & _ & _ & _ & _ & Hw & Ht).
  destruct H1 as (Hsum & Hall & Hbuf).
  assert (Hbuf2 : payload_chunk (data_to_send l2)).
  { destruct Hd as [-> | (r & Hr & ->)];
      [exact Hbuf | now apply payload_chunk_firstn]. }
  cbn [after fst snd]. unfold wired. rewrite Hw, Ht, total_len_app.
  split; [|split; [|exact Hbuf2]].
  - unfold total_len at 2. cbn [fold_right]. lia.
  - apply Forall_app. split; [exact Hall | now constructor].
Qed.

Lemma session_start_wired (args : Args) (env : Env) (l : Locals) (w : World) :
  session_start args env = (Ok l, w) -> wired l w.
Proof.
  assert (Hbuf : payload_chunk (repeat "0"%byte (Z.to_nat BUFFER_SIZE))).
  { unfold payload_chunk, len. rewrite repeat_length.
    split; [discriminate|]. split; [now rewrite Z2Nat.id|].
    apply Forall_forall. intros x Hx. now apply repeat_spec in Hx. }
  unfold session_start, read_clock, time_time.
  destruct (is_empty (args_num args));
    [|destruct (parse_num_bytes (args_num args)); [|discriminate]];
    intros [= <- <-]; (split; [reflexivity|]); (split; [constructor|]);
    exact Hbuf.
Qed.

Lemma send_phase_wired (fuel : nat) (args : Args) (env : Env)
    (st : Status) (l : Locals) (w : World) :
  send_phase fuel args env = Some (st, l, w) -> wired l w.
Proof.
  unfold send_phase.
  destruct (session_start args env) as [[l0|e] w0] eqn:Hs; [|discriminate].
  intros [= H].
  pose proof (send_loop_invariant args env wired (loop_body_wired args env)
                fuel l0 w0 (session_start_wired _ _ _ _ Hs)) as Hinv.
  now rewrite H in Hinv.
Qed.

Lemma payload_chunk_plain (c : bytes) :
  payload_chunk c -> c <> [] /\ contains BYE c = false.
Proof.
  intros (Hne & _ & Hz). split; [exact Hne | now apply zeros_no_sentinel].
Qed.

(** X9. Wherever the send loop stands, [total_sent] is the number of
    bytes handed to [sendall] so far, and every chunk sent is not empty,
    of 1000 bytes at most and made of bytes '0' only, so that no payload
    chunk holds the sentinel. *)
Theorem session_wire (fuel : nat) (args : Args) (env : Env)
    (st : Status) (l : Locals) (w : World) :
  send_phase fuel args env = Some (st, l, w) ->
  total_len (wire w) = total_sent l /\
  0 <= total_sent l /\
  Forall payload_chunk (wire w) /\
  Forall (fun c => contains BYE c = false) (wire w).
Proof.
  intros H. apply send_phase_wired in H as (Hsum & Hall & _).
  split; [exact Hsum|]. split; [rewrite <- Hsum; apply total_len_nonneg|].
  split; [exact Hall|].
  eapply Forall_impl; [|exact Hall]. intros c Hc.
  now apply payload_chunk_plain.
Qed.

Lemma session_wire_witness :
  match send_phase 3 (client_args 1 0 "") (steady (1 # 2) TimedOut) with
  | Some (st, l, w) =>
      total_len (wire w) = total_sent l /\ 0 <= total_sent l /\
      Forall payload_chunk (wire w) /\
      Forall (fun c => contains BYE c = false) (wire w)
  | None => False
  end.
Proof.
  destruct (send_phase 3 (client_args 1 0 "") (steady (1 # 2) TimedOut))
    as [[[st l] w]|] eqn:E.
  - exact (session_wire _ _ _ _ _ _ E).
  - vm_compute in E. discriminate.
Defined.

(** X10. Client and server agree. When the send loop of a session has
    returned, a server that receives the chunks of the session as they
    were sent, the sentinel last, credits exactly [total_sent] bytes and
    replies ACK: BYE once; and with this reply, a printable unit and a
    clock that does not run backwards, the session returns having
    appended one result, for the server address and port of its
    arguments. *)
Theorem client_server_agree (fuel : nat) (args : Args) (env : Env)
    (rs : list SessionResult) (l : Locals) (w : World) :
  send_phase fuel args env = Some (Returned, l, w) ->
  receive_all
    (accepted (wire (snd (fst (client_connection fuel args env rs))))) =
    (total_sent l,
     {| incoming := []; outgoing := [ACK_BYE]; closed := true |}) /\
  (reply env = Received ACK_BYE ->
   (forall k, 0 <= delay env k)%Q ->
   units (args_format args) <> None ->
   exists (w' : World) (r : SessionResult),
     client_connection fuel args env rs = (Returned, w', rs ++ [r]) /\
     result_ip r = args_serverip args /\ result_port r = args_port args).
Proof.
  intros Hphase.
  pose proof (send_phase_wired _ _ _ _ _ _ Hphase) as (Hsum & Hall & _).
  rewrite (client_connection_returned _ _ _ _ _ rs Hphase).
  split.
  - rewrite session_finish_wire.
    assert (Hpre : Forall (fun c => c <> [] /\ contains BYE c = false)
                     (wire w)).
    { eapply Forall_impl; [|exact Hall]. intros c Hc.
      now apply payload_chunk_plain. }
    rewrite (receive_all_sentinel (wire w) BYE [] Hpre eq_refl).
    f_equal. change (len BYE) with 3. lia.
  - intros Hreply Hd Hu.
    destruct (units (args_format args)) as [u|] eqn:Hf; [|congruence].
    destruct (session_finish_cases args env l w rs Hd
                (send_phase_returned _ _ _ _ _ Hphase))
      as (st & w' & rs' & Hfin & _ & Hcase).
    rewrite Hreply, Hf in Hcase. cbn in Hcase.
    destruct Hcase as (-> & _ & r & -> & _ & _ & _ & _ & Hip & Hport).
    exists w', r. split; [exact Hfin|]. now split.
Qed.

Lemma client_server_agree_witness :
  match send_phase 4 (client_args 25 0 "2500 B")
          (steady (1 # 1000) (Received ACK_BYE)) with
  | Some (Returned, l, w) =>
      receive_all
        (accepted (wire (snd (fst (client_connection 4
           (client_args 25 0 "2500 B")
           (steady (1 # 1000) (Received ACK_BYE)) []))))) =
      (total_sent l,
       {| incoming := []; outgoing := [ACK_BYE]; closed := true |}) /\
      exists (w' : World) (r : SessionResult),
        client_connection 4 (client_args 25 0 "2500 B")
          (steady (1 # 1000) (Received ACK_BYE)) [] = (Returned, w', [r])
  | _ => False
  end.
Proof.
  destruct (send_phase 4 (client_args 25 0 "2500 B")
              (steady (1 # 1000) (Received ACK_BYE)))
    as [[[[| |e] l] w]|] eqn:E; try (vm_compute in E; discriminate).
  destruct (client_server_agree 4 _ _ [] l w E) as [Hserver Hclient].
  split; [exact Hserver|].
  assert (Hd : forall k : nat,
            (0 <= delay (steady (1 # 1000) (Received ACK_BYE)) k)%Q)
    by (intros k; unfold Qle; simpl; lia).
  assert (Hu : units (args_format (client_args 25 0 "2500 B")) <> None)
    by discriminate.
  destruct (Hclient eq_refl Hd Hu) as (w' & r & Hrun & _).
  exists w', r. exact Hrun.
Defined.

(** ** Client side: cap and duration *)

Lemma loop_body_capped (args : Args) (env : Env) (N : Z)
    (l : Locals) (w : World) :
  is_empty (args_num args) = false ->
  capped N l w ->
  capped N (fst (after (loop_body args env l w)))
           (snd (after (loop_body args env l w))).
Proof.
  intros Hnum H. unfold loop_body, read_clock, time_time.
  match goal with
  | |- context [report_interval args ?l0 ?w0] =>
      assert (H0 : capped N l0 w0) by exact H;
      pose proof (report_interval_cases args l0 w0) as Hc;
      destruct (report_interval args l0 w0) as [[l1 w1]|e]
  end; [|exact H0].
  assert (H1 : capped N l1 w1).
  { destruct Hc as [(-> & -> & _) | (_ & _ & (row & _ & ->) & ->)];
      exact H0. }
  destruct (Qle_bool _ _); [exact H1|].
  unfold send_chunk. rewrite Hnum.
  destruct H1 as (r & Hr & Hpos & Hsum & Hwire & Hall & Hbuf).
  rewrite Hr. destruct (r <=? 0) eqn:Hle.
  { exists r. repeat split; assumption. }
  apply Z.leb_gt in Hle. destruct Hbuf as [Hbuf|Hbuf]; [|lia].
  pose proof (len_slice_to (data_to_send l1) r Hle) as Hlen.
  rewrite Hbuf in Hlen. unfold BUFFER_SIZE in *.
  exists (r - len (slice_to (data_to_send l1) r)).
  unfold sendall. cbn [after fst snd remaining_bytes total_sent wire data_to_send].
  rewrite total_len_app, Hlen.
  unfold total_len at 2. cbn [fold_right]. rewrite Hlen.
  unfold BUFFER_SIZE. repeat split; try lia.
  apply Forall_app. split; [exact Hall|].
  constructor; [|constructor]. rewrite Hlen. lia.
Qed.

(** X11. A byte cap [N >= 0] is never exceeded: wherever the send loop
    stands, whatever the clock and the unit, what was sent and what
    remains add up to [N], so the bytes sent are at most [N], also when
    the duration ends the loop first or the reporter raises. *)
Theorem byte_cap_never_exceeded (fuel : nat) (args : Args) (env : Env)
    (N : Z) (st : Status) (l : Locals) (w : World) :
  parse_num_bytes (args_num args) = Ok (Some N) ->
  0 <= N ->
  send_phase fuel args env = Some (st, l, w) ->
  total_sent l <= N /\
  total_len (wire w) = total_sent l /\
  exists r, remaining_bytes l = Some r /\ 0 <= r /\ total_sent l + r = N.
Proof.
  intros Hp HN Hphase.
  destruct (session_start_capped args env N Hp HN)
    as (He & l0 & w0 & Hs & Hcap & _).
  unfold send_phase in Hphase. rewrite Hs in Hphase. injection Hphase as H.
  pose proof (send_loop_invariant args env (capped N)
                (fun l w => loop_body_capped args env N l w He)
                fuel l0 w0 Hcap) as Hinv.
  rewrite H in Hinv. cbn [fst snd] in Hinv.
  destruct Hinv as (r & Hr & Hpos & Hsum & Hwire & _).
  split; [lia|]. split; [exact Hwire|]. exists r. now repeat split.
Qed.

Lemma byte_cap_never_exceeded_witness :
  match send_phase 3 (client_args 1 0 "5000 B")
          (steady (1 # 2) TimedOut) with
  | Some (st, l, w) => st = Returned /\ total_sent l <= 5000
  | None => False
  end.
Proof.
  destruct (send_phase 3 (client_args 1 0 "5000 B")
              (steady (1 # 2) TimedOut)) as [[[st l] w]|] eqn:E.
  - split; [vm_compute in E; congruence|].
    apply (byte_cap_never_exceeded 3 (client_args 1 0 "5000 B")
             (steady (1 # 2) TimedOut) 5000 st l w eq_refl); [lia|exact E].
  - vm_compute in E. discriminate.
Defined.

Section Duration.

Variables (args : Args) (env : Env) (u : Z) (k : nat).
Hypothesis Hnum : is_empty (args_num args) = true.
Hypothesis Hformat : units (args_format args) = Some u.
Hypothesis Hbelow : forall j : nat, (1 <= j < k)%nat ->
  (elapsed_at (delay env) j < inject_Z (args_time args))%Q.
Hypothesis Hreach :
  (inject_Z (args_time args) <= elapsed_at (delay env) k)%Q.

Lemma duration_run : forall (fuel j : nat) (l : Locals) (w : World),
  ticked env j l w -> (j < k <= j + fuel)%nat -> full_chunks l w ->
  exists l' w',
    send_loop fuel args env l w = (Returned, l', w') /\
    full_chunks l' w' /\
    total_sent l' = total_sent l + BUFFER_SIZE * (Z.of_nat k - 1 - Z.of_nat j) /\
    elapsed_time l' = elapsed_at (delay env) k.
Proof.
  induction fuel as [|fuel IH]; intros j l w Htick Hj Hfull; [lia|].
  destruct Htick as (Hk & Hnow & Hstart).
  cbn [send_loop]. unfold loop_body, read_clock, time_time.
  rewrite Hk, Hnow, Hstart.
  change (reading (delay env) j + delay env (S j))%Q
    with (reading (delay env) (S j)).
  change (reading (delay env) (S j) - reading (delay env) 0)%Q
    with (elapsed_at (delay env) (S j)).
  match goal with
  | |- context [report_interval args ?l0 ?w0] =>
      destruct (report_interval_frame args u Hformat l0 w0)
        as (l1 & w1 & -> & Hs1 & Ht1 & Hd1 & _ & He1 & Hw1 & Hc1 & _)
  end.
  cbn [start_time total_sent data_to_send elapsed_time wire clock set_clock]
    in Hs1, Ht1, Hd1, He1, Hw1, Hc1.
  rewrite He1.
  destruct Hfull as (Hbuf & Hall & Htot).
  destruct (Nat.eq_dec (S j) k) as [Heq|Hne].
  - rewrite Heq. rewrite (proj2 (Qle_bool_iff _ _) Hreach).
    exists l1, w1. split; [reflexivity|].
    split; [unfold full_chunks; now rewrite Hd1, Hw1, Ht1|].
    split; [lia | now rewrite He1, Heq].
  - destruct (Qle_bool _ _) eqn:Hq.
    { apply Qle_bool_iff in Hq.
      assert (Hlt : (1 <= S j < k)%nat) by lia.
      pose proof (Hbelow (S j) Hlt). lra. }
    unfold send_chunk. rewrite Hnum.
    match goal with
    | |- context [send_loop fuel args env ?l2 ?w2] =>
        destruct (IH (S j) l2 w2) as (l' & w' & Hrun & Hfull' & Htot' & He')
    end.
    + unfold ticked, sendall. cbn [clock start_time].
      rewrite Hc1, Hs1. repeat split.
    + lia.
    + unfold full_chunks, sendall. cbn [data_to_send wire total_sent].
      rewrite Hd1, Hw1, Ht1, Hbuf. split; [reflexivity|].
      split; [apply Forall_app; split; [exact Hall | now constructor]|].
      unfold len in *. rewrite length_app. cbn [List.length].
      unfold BUFFER_SIZE in *. lia.
    + exists l', w'. split; [exact Hrun|]. split; [exact Hfull'|].
      split; [|exact He'].
      rewrite Htot'. cbn [total_sent]. rewrite Ht1, Hd1, Hbuf.
      unfold BUFFER_SIZE. lia.
Qed.

End Duration.

Lemma session_start_full (args : Args) (env : Env) :
  is_empty (args_num args) = true ->
  exists l w,
    session_start args env = (Ok l, w) /\
    ticked env 0 l w /\ full_chunks l w /\ total_sent l = 0 /\ wire w = [].
Proof.
  intros He. unfold session_start, read_clock, time_time. rewrite He.
  eexists _, _. split; [reflexivity|].
  split; [repeat split|]. split; [|split; reflexivity].
  unfold full_chunks, print, set_clock. cbn [data_to_send wire total_sent].
  split; [|split; [constructor | reflexivity]].
  unfold len. rewrite repeat_length. now apply Z2Nat.id.
Qed.

(** X12. Without a byte cap the duration alone ends the send loop: when
    the [k]-th reading of the clock after the start is the first one at
    which the duration has elapsed, and the unit is printable, the loop
    returns at that reading having sent [k - 1] chunks, each one a full
    buffer, so 1000 * (k - 1) bytes. *)
Theorem duration_only (fuel : nat) (args : Args) (env : Env) (k : nat) :
  is_empty (args_num args) = true ->
  units (args_format args) <> None ->
  (1 <= k <= fuel)%nat ->
  (forall j : nat, (1 <= j < k)%nat ->
     (elapsed_at (delay env) j < inject_Z (args_time args))%Q) ->
  (inject_Z (args_time args) <= elapsed_at (delay env) k)%Q ->
  exists (l : Locals) (w : World),
    send_phase fuel args env = Some (Returned, l, w) /\
    total_sent l = BUFFER_SIZE * (Z.of_nat k - 1) /\
    len (wire w) = Z.of_nat k - 1 /\
    Forall (fun c => len c = BUFFER_SIZE) (wire w) /\
    elapsed_time l = elapsed_at (delay env) k.
Proof.
  intros He Hu Hk Hbelow Hreach.
  destruct (units (args_format args)) as [u|] eqn:Hf; [clear Hu|congruence].
  destruct (session_start_full args env He)
    as (l0 & w0 & Hs & Htick & Hfull & Ht0 & Hw0).
  assert (Hj : (0 < k <= 0 + fuel)%nat) by lia.
  destruct (duration_run args env u k He Hf Hbelow Hreach fuel 0%nat l0 w0
              Htick Hj Hfull)
    as (l & w & Hrun & (Hbuf & Hall & Htot) & Hsum & Hel).
  exists l, w. unfold send_phase. rewrite Hs, Hrun.
  split; [reflexivity|]. rewrite Ht0 in Hsum.
  split; [rewrite Hsum; simpl (Z.of_nat 0); lia|].
  split; [|split; assumption].
  rewrite Htot in Hsum. unfold BUFFER_SIZE in Hsum.
  simpl (Z.of_nat 0) in Hsum. lia.
Qed.

Lemma duration_only_witness :
  exists (l : Locals) (w : World),
    send_phase 5 (client_args 1 0 "") (steady (1 # 3) TimedOut)
      = Some (Returned, l, w) /\
    total_sent l = BUFFER_SIZE * (Z.of_nat 3 - 1) /\
    len (wire w) = Z.of_nat 3 - 1 /\
    Forall (fun c => len c = BUFFER_SIZE) (wire w) /\
    elapsed_time l = elapsed_at (delay (steady (1 # 3) TimedOut)) 3.
Proof.
  apply (duration_only 5 (client_args 1 0 "") (steady (1 # 3) TimedOut) 3).
  - reflexivity.
  - discriminate.
  - lia.
  - intros j Hj. assert (j = 1 \/ j = 2)%nat as [-> | ->] by lia;
      vm_compute; reflexivity.
  - vm_compute. discriminate.
Defined.

(** ** Client side: what the interval rows add up to *)

Lemma sizes_app (x y : list Line) : sizes (x ++ y) = sizes x ++ sizes y.
Proof.
  induction x as [|r x IH]; [reflexivity|].
  destruct r; cbn [app sizes]; rewrite ?IH; reflexivity.
Qed.

Lemma print_interval_size (args : Args) (total last a c : Z) (row : Line) :
  print_interval total last a c args = Ok row ->
  exists size : Q,
    sizes [row] = [size] /\
    format_size (inject_Z (total - last)) (args_format args) = Ok size.
Proof.
  unfold print_interval.
  destruct (format_size _ _) as [size|]; [|discriminate].
  destruct (calculate_rate _ _); [|discriminate].
  intros [= <-]. now exists size.
Qed.

Lemma sum_app (bs : list Z) (x : Z) :
  fold_right Z.add 0 (bs ++ [x]) = fold_right Z.add 0 bs + x.
Proof. induction bs as [|y bs IH]; cbn [app fold_right]; lia. Qed.

Lemma sum_nonneg (bs : list Z) :
  Forall (fun x => 0 <= x) bs -> 0 <= fold_right Z.add 0 bs.
Proof. induction 1; cbn [fold_right]; lia. Qed.

Lemma loop_body_accounted (args : Args) (env : Env) (l : Locals) (w : World) :
  (exists bs, accounted args bs l w) ->
  exists bs, accounted args bs
               (fst (after (loop_body args env l w)))
               (snd (after (loop_body args env l w))).
Proof.
  intros H. unfold loop_body, read_clock, time_time.
  match goal with
  | |- context [report_interval args ?l0 ?w0] =>
      assert (H0 : exists bs, accounted args bs l0 w0) by exact H;
      pose proof (report_interval_cases args l0 w0) as Hc;
      destruct (report_interval args l0 w0) as [[l1 w1]|e]
  end; [|exact H0].
  assert (H1 : exists bs, accounted args bs l1 w1).
  { destruct Hc as [(-> & -> & _) | (_ & _ & (row & Hrow & ->) & ->)];
      [exact H0|].
    destruct H0 as (bs & Hrows & Hpos & Hsum & Hle).
    cbn [stdout set_clock last_interval_sent total_sent] in *.
    destruct (print_interval_size _ _ _ _ _ _ Hrow) as (size & Hsize & Hfmt).
    exists (bs ++ [total_sent l - last_interval_sent l]).
    unfold accounted, print. cbn [stdout last_interval_sent total_sent].
    rewrite sizes_app, Hsize, sum_app.
    split; [apply Forall2_app; [exact Hrows | now repeat constructor]|].
    split; [apply Forall_app; split; [exact Hpos|]; constructor;
            [lia | constructor]|].
    split; lia. }
  destruct (Qle_bool _ _); [exact H1|].
  destruct (send_chunk args l1 w1) as [[[l2 w2]|]|e] eqn:Hs;
    [|exact H1|exact H1].
  apply send_chunk_frame in Hs
    as (Ho & _ & _ & _ & Hl & _ & _ & _ & _ & Ht).
  destruct H1 as (bs & Hrows & Hpos & Hsum & Hle). exists bs.
  cbn [after fst snd]. unfold accounted.
  rewrite Ho, Hl, Ht. repeat split; try assumption. unfold len. lia.
Qed.

Lemma session_start_accounted (args : Args) (env : Env)
    (l : Locals) (w : World) :
  session_start args env = (Ok l, w) -> accounted args [] l w.
Proof.
  unfold session_start, read_clock, time_time, print_client_connection.
  destruct (1 <? args_parallel args);
    (destruct (is_empty (args_num args));
     [|destruct (parse_num_bytes (args_num args)); [|discriminate]]);
    intros [= <- <-]; unfold accounted;
    (split; [constructor|]); (split; [constructor|]);
    split; first [reflexivity | cbn [last_interval_sent total_sent]; lia].
Qed.

(** X13. The interval rows never count a byte twice or ahead of time:
    wherever the send loop stands, the rows printed so far show, one by
    one and in order, [format_size] of byte counts that are not negative
    and add up to the bytes sent up to the last reported boundary, which
    are not more than [total_sent]; the bytes sent after that boundary
    are in no row. *)
Theorem interval_rows_account (fuel : nat) (args : Args) (env : Env)
    (st : Status) (l : Locals) (w : World) :
  send_phase fuel args env = Some (st, l, w) ->
  exists bs : list Z,
    Forall2 (fun b size =>
               format_size (inject_Z b) (args_format args) = Ok size)
            bs (sizes (stdout w)) /\
    Forall (fun b => 0 <= b) bs /\
    fold_right Z.add 0 bs = last_interval_sent l /\
    0 <= last_interval_sent l <= total_sent l.
Proof.
  unfold send_phase.
  destruct (session_start args env) as [[l0|e] w0] eqn:Hs; [|discriminate].
  intros [= H].
  apply session_start_accounted in Hs.
  pose proof (send_loop_invariant args env
                (fun l w => exists bs, accounted args bs l w)
                (loop_body_accounted args env) fuel l0 w0
                (ex_intro _ [] Hs)) as Hinv.
  rewrite H in Hinv. cbn [fst snd] in Hinv.
  destruct Hinv as (bs & Hrows & Hpos & Hsum & Hle).
  exists bs. repeat split; try assumption.
  rewrite <- Hsum. now apply sum_nonneg.
Qed.

Lemma interval_rows_account_witness :
  match send_phase 10 (client_args 3 1 "") (steady (1 # 2) TimedOut) with
  | Some (st, l, w) =>
      st = Returned /\ last_interval_sent l = 5000 /\
      List.length (sizes (stdout w)) = 3%nat /\
      exists bs : list Z,
        Forall2 (fun b size => format_size (inject_Z b) "MB" = Ok size)
                bs (sizes (stdout w)) /\
        Forall (fun b => 0 <= b) bs /\
        fold_right Z.add 0 bs = last_interval_sent l /\
        0 <= last_interval_sent l <= total_sent l
  | None => False
  end.
Proof.
  destruct (send_phase 10 (client_args 3 1 "") (steady (1 # 2) TimedOut))
    as [[[st l] w]|] eqn:E.
  - pose proof (interval_rows_account 10 (client_args 3 1 "")
                  (steady (1 # 2) TimedOut) st l w E) as H.
    vm_compute in E. injection E as <- <- <-.
    split; [reflexivity|]. split; [reflexivity|]. split; [reflexivity|].
    exact H.
  - vm_compute in E. discriminate.
Defined.

(** ** A cap that does not parse *)

Lemma parse_num_bytes_raises (s : string) (e : exn) :
  parse_num_bytes s = Raise e ->
  is_empty s = false /\ (e = MalformedInput \/ e = InvalidUnit).
Proof.
  unfold parse_num_bytes. destruct (is_empty s); [discriminate|].
  intros H. split; [reflexivity|].
  destruct (split (strip s)) as [|x [|y [|z t]]];
    try (injection H as <-; now left).
  destruct (int x); [|injection H as <-; now left].
  destruct (units y); [discriminate | injection H as <-; now right].
Qed.

(** X14. A byte cap that does not parse stops every session before it
    sends anything: [client_connection] leaves by the [ValueError] of
    [parse_num_bytes] with nothing sent, no sentinel, nothing appended
    and the socket not closed, whatever the fuel, so the orchestrator
    prints the header and no row. *)
Theorem cap_not_parsed (fuel : nat) (args : Args) (envs : nat -> Env)
    (order : list nat) (e : exn) :
  parse_num_bytes (args_num args) = Raise e ->
  (e = MalformedInput \/ e = InvalidUnit) /\
  (forall (env : Env) (rs : list SessionResult),
     exists w,
       client_connection fuel args env rs = (Uncaught e, w, rs) /\
       wire w = [] /\ sock_closed w = false) /\
  create_parallel_connections fuel args envs order =
    Some (print_results args [], []) /\
  headers (print_results args []) = 1%nat /\
  windows (print_results args []) = [].
Proof.
  intros Hp. destruct (parse_num_bytes_raises _ _ Hp) as [He Hkind].
  assert (Hrun : forall env rs, exists w,
            client_connection fuel args env rs = (Uncaught e, w, rs) /\
            wire w = [] /\ sock_closed w = false).
  { intros env rs. unfold client_connection, session_start, read_clock,
      time_time. rewrite He, Hp. eexists. repeat split. }
  split; [exact Hkind|]. split; [exact Hrun|].
  split; [|split].
  - unfold create_parallel_connections.
    rewrite join_all_entries.
    + assert (Hnil : flat_map (fun i => session_entries fuel args (envs i))
                       order = []).
      { induction order as [|i order IH]; [reflexivity|].
        cbn [flat_map]. rewrite IH. unfold session_entries.
        destruct (Hrun (envs i) []) as (w & -> & _). reflexivity. }
      now rewrite Hnil.
    + intros i _. unfold session_status.
      destruct (Hrun (envs i) []) as (w & -> & _). discriminate.
  - unfold print_results. destruct (1 <? args_parallel args); reflexivity.
  - unfold print_results. destruct (1 <? args_parallel args); reflexivity.
Qed.

Lemma cap_not_parsed_witness :
  create_parallel_connections 0
    (with_parallel 2 (client_args 25 0 "20000"))
    (fun _ => steady (1 # 1000) (Received ACK_BYE)) [1; 0]%nat =
  Some (print_results (with_parallel 2 (client_args 25 0 "20000")) [], []).
Proof.
  apply (cap_not_parsed 0 (with_parallel 2 (client_args 25 0 "20000"))
           (fun _ => steady (1 # 1000) (Received ACK_BYE)) [1; 0]%nat
           MalformedInput eq_refl).
Defined.

(** ** One report per turn *)

Lemma loop_body_one_row (args : Args) (env : Env) (l : Locals) (w : World) :
  let w' := snd (after (loop_body args env l w)) in
  ticks (clock w') = S (ticks (clock w)) /\
  (List.length (windows (stdout w')) <= S (List.length (windows (stdout w))))%nat.
Proof.
  cbv zeta. unfold loop_body, read_clock, time_time.
  match goal with
  | |- context [report_interval args ?l0 ?w0] =>
      pose proof (report_interval_cases args l0 w0) as Hc;
      destruct (report_interval args l0 w0) as [[l1 w1]|e]
  end; [|cbn; lia].
  match type of Hc with
  | (l1 = ?l0 /\ w1 = ?w0 /\ _) \/ _ =>
      assert (H1 : ticks (clock w1) = S (ticks (clock w)) /\
                   (List.length (windows (stdout w1))
                    <= S (List.length (windows (stdout w))))%nat)
  end.
  { destruct Hc as [(-> & -> & _) | (_ & _ & (row & Hrow & ->) & ->)].
    - cbn. lia.
    - unfold print. cbn [clock stdout set_clock ticks].
      rewrite windows_app, (print_interval_row _ _ _ _ _ _ Hrow), length_app.
      cbn. lia. }
  destruct (Qle_bool _ _); [exact H1|].
  destruct (send_chunk args l1 w1) as [[[l2 w2]|]|e] eqn:Hs;
    [|exact H1|exact H1].
  apply send_chunk_frame in Hs as (Ho & Hc2 & _).
  cbn [after snd]. now rewrite Ho, Hc2.
Qed.

Lemma send_loop_rows (args : Args) (env : Env) :
  forall (fuel : nat) (l : Locals) (w : World),
  let w' := snd (send_loop fuel args env l w) in
  (ticks (clock w) <= ticks (clock w') <= ticks (clock w) + fuel)%nat /\
  (List.length (windows (stdout w')) + ticks (clock w)
   <= List.length (windows (stdout w)) + ticks (clock w'))%nat.
Proof.
  induction fuel as [|fuel IH]; intros l w; cbv zeta; cbn [send_loop].
  - cbn. lia.
  - pose proof (loop_body_one_row args env l w) as H. cbv zeta in H.
    destruct (loop_body args env l w) as [l1 w1|l1 w1|e l1 w1];
      cbn [after snd] in H; [|cbn [snd]; lia|cbn [snd]; lia].
    specialize (IH l1 w1). cbv zeta in IH. lia.
Qed.

(** X15. The reporter prints one row per turn of the loop at most: after
    any number of turns there are not more interval rows than turns,
    however far the clock went in a turn, so the rows can be behind the
    clock. *)
Theorem one_row_per_turn (fuel : nat) (args : Args) (env : Env)
    (st : Status) (l : Locals) (w : World) :
  send_phase fuel args env = Some (st, l, w) ->
  (List.length (windows (stdout w)) <= ticks (clock w) - 1)%nat /\
  (ticks (clock w) - 1 <= fuel)%nat.
Proof.
  unfold send_phase.
  destruct (session_start args env) as [[l0|e] w0] eqn:Hs; [|discriminate].
  intros [= H].
  pose proof (send_loop_rows args env fuel l0 w0) as Hr. cbv zeta in Hr.
  rewrite H in Hr. cbn [snd] in Hr.
  pose proof (session_start_reporting _ _ _ _ Hs) as [_ Hw].
  apply session_start_ticked in Hs as (Ht & _).
  rewrite Hw, Ht in Hr. cbn [List.length] in Hr. lia.
Qed.

Lemma one_row_per_turn_witness :
  match send_phase 10 (client_args 12 1 "") (steady 5 TimedOut) with
  | Some (st, l, w) =>
      st = Returned /\ elapsed_time l = 15%Q /\
      (List.length (windows (stdout w)) <= ticks (clock w) - 1)%nat /\
      (ticks (clock w) - 1 <= 10)%nat
  | None => False
  end.
Proof.
  destruct (send_phase 10 (client_args 12 1 "") (steady 5 TimedOut))
    as [[[st l] w]|] eqn:E.
  - pose proof (one_row_per_turn _ _ _ _ _ _ E) as H.
    split; [vm_compute in E; congruence|].
    split; [|exact H].
    vm_compute in E. injection E as _ <- _. reflexivity.
  - vm_compute in E. discriminate.
Defined.

(** ** The sentinel *)

(** X17. A session sends the sentinel once and last, and only when its
    send loop returned: then what it sent is the payload chunks followed
    by BYE, none of the payload chunks holding BYE; when the loop is left
    by an exception or still runs, and when the cap did not parse, no
    chunk that holds BYE was sent. *)
Theorem sentinel_once (fuel : nat) (args : Args) (env : Env)
    (rs : list SessionResult) :
  let sent := wire (snd (fst (client_connection fuel args env rs))) in
  match send_phase fuel args env with
  | Some (Returned, l, w) =>
      sent = wire w ++ [BYE] /\
      Forall (fun c => contains BYE c = false) (wire w)
  | Some (_, l, w) =>
      sent = wire w /\ Forall (fun c => contains BYE c = false) sent
  | None => sent = []
  end.
Proof.
  cbv zeta.
  destruct (send_phase fuel args env) as [[[st l] w]|] eqn:Hphase.
  - assert (Hplain : Forall (fun c => contains BYE c = false) (wire w)).
    { apply send_phase_wired in Hphase as (_ & Hall & _).
      eapply Forall_impl; [|exact Hall]. intros c Hc.
      now apply payload_chunk_plain. }
    destruct st.
    + unfold send_phase, client_connection in *.
      destruct (session_start args env) as [[l0|e] w0]; [|discriminate].
      injection Hphase as ->. cbn [fst snd]. now split.
    + rewrite (client_connection_returned _ _ _ _ _ rs Hphase).
      split; [apply session_finish_wire | exact Hplain].
    + unfold send_phase, client_connection in *.
      destruct (session_start args env) as [[l0|e'] w0]; [|discriminate].
      injection Hphase as ->. cbn [fst snd]. now split.
  - unfold send_phase, client_connection in *.
    destruct (session_start args env) as [[l0|e] w0] eqn:Hs; [discriminate|].
    cbn [fst snd]. unfold session_start, read_clock, time_time in Hs.
    destruct (is_empty (args_num args)); [discriminate|].
    destruct (parse_num_bytes (args_num args)); [discriminate|].
    now injection Hs as _ <-.
Qed.

(** ** Rows and entry point *)



(** X19. What [main] runs: server mode exactly when [-s] is given, also
    with [-c] and whatever [-t]; client mode exactly when [-c] is given
    without [-s] and the time is positive; it prints nothing itself
    exactly when it runs a mode, and it ends by [sys.exit] only when no
    mode is given, with status 1. *)
Theorem main_dispatch (args : Args) :
  (runs (main args) = Some ServerMode <-> args_server args = true) /\
  (runs (main args) = Some ClientMode <->
   args_server args = false /\ args_client args = true /\
   0 < args_time args) /\
  (printed (main args) = [] <-> runs (main args) <> None) /\
  (sys_exit (main args) = Some 1 <->
   args_server args = false /\ args_client args = false) /\
  (sys_exit (main args) = None \/ sys_exit (main args) = Some 1).
Proof.
  unfold main.
  destruct (args_server args), (args_client args); cbn [negb andb];
    try destruct (0 <? args_time args) eqn:Ht; cbn;
    try apply Z.ltb_lt in Ht; try apply Z.ltb_ge in Ht;
    repeat split; intros; try discriminate; try congruence; auto;
    try lia;
    repeat match goal with
           | H : _ /\ _ |- _ => destruct H
           end; try discriminate; try lia; try congruence.
Qed.

Lemma main_dispatch_witness :
  runs (main (with_parallel 1
          {| args_server := true; args_bind := "10.0.0.2"; args_port := 8088;
             args_format := "MB"; args_client := true;
             args_serverip := "10.0.0.2"; args_time := 0;
             args_interval := 0; args_parallel := 1; args_num := "" |}))
  = Some ServerMode.
Proof.
  apply (proj2 (proj1 (main_dispatch _))). reflexivity.
Defined.
